(** * Quranic Speech Collector: the batch pipeline of [main.py]

    A shallow embedding of the batch accumulation, chunking and upload
    code of [main.py] ([get_batch_size], [split_file], [upload_batch],
    [submit]) and the properties of it that the design document states.

    Files are byte lists kept in finite maps keyed by file name; the
    record store and the transfer channel are explicit state; the
    coroutines are cut at their [await] points. *)

From Stdlib Require Import ZArith Ascii String List Lia.
From Stdlib Require Import Decimal DecimalNat DecimalString.
From stdpp Require Import base option list gmap fin_maps strings sorting.

Local Open Scope string_scope.
Local Open Scope Z_scope.

(** ** Bytes, errors *)

Abbreviation byte := Byte.byte.
Abbreviation bytes := (list Byte.byte).

(** What a call can end with besides a value.  [FileNotFoundError] is
    Python's; [APIError] is the store client's, raised by a query that
    asks for one row and finds none or several; [LoopBound] is the
    embedding's own: the bound on the iterations of a [while True] loop
    was reached. *)
Inductive error : Set :=
| FileNotFoundError
| LoopBound
| APIError.

Inductive result (A : Type) : Type :=
| Ok (a : A)
| Raise (e : error).
Arguments Ok {A} a.
Arguments Raise {A} e.

(** Sequencing stops at the first error. *)
#[global] Instance result_bind : MBind result := fun A B k r =>
  match r with
  | Ok a => k a
  | Raise e => Raise e
  end.

#[global] Instance result_ret : MRet result := fun A a => Ok a.

(** ** Paths (pathlib) *)

Module Path.

(** [name.rfind('.')] *)
Fixpoint rfind_dot (name : string) : option nat :=
  match name with
  | EmptyString => None
  | String c rest =>
      match rfind_dot rest with
      | Some i => Some (S i)
      | None => if Ascii.eqb c "." then Some 0%nat else None
      end
  end.

(** The index of the dot that starts the suffix:
    [0 < i < len(name) - 1], otherwise there is no suffix. *)
Definition suffix_index (name : string) : option nat :=
  match rfind_dot name with
  | Some i =>
      if ((0 <? i)%nat && (i <? String.length name - 1)%nat)%bool
      then Some i else None
  | None => None
  end.

(** [PurePath.suffix] *)
Definition suffix (name : string) : string :=
  match suffix_index name with
  | Some i => substring i (String.length name - i) name
  | None => ""
  end.

(** [PurePath.stem] *)
Definition stem (name : string) : string :=
  match suffix_index name with
  | Some i => substring 0 i name
  | None => name
  end.

(** [PurePath.with_suffix], for a suffix that passes its checks (it
    starts with a dot and holds no separator, as every suffix this
    program passes does). *)
Definition with_suffix (name sfx : string) : string :=
  let old_suffix := suffix name in
  if String.eqb old_suffix ""
  then name ++ sfx
  else substring 0 (String.length name - String.length old_suffix) name ++ sfx.

(** [fnmatch(name, "*" + ending)]: the name ends with [ending]. *)
Definition ends_with (ending name : string) : bool :=
  let n := String.length name in
  let k := String.length ending in
  ((k <=? n)%nat && String.eqb (substring (n - k) k name) ending)%bool.

End Path.

(** ** The chunker *)

(** [f"{part_no:03d}"]: decimal digits, zero-padded on the left to a
    width of at least three. *)
Definition fmt_03d (part_no : nat) : string :=
  let d := Nat.to_uint part_no in
  NilEmpty.string_of_uint (Nat.iter (3 - Decimal.nb_digits d) Decimal.D0 d).

Definition part_suffix (part_no : nat) : string := ".part" ++ fmt_03d part_no.

(** [src.with_suffix(f".part{part_no:03d}")] *)
Definition part_path (src : string) (part_no : nat) : string :=
  Path.with_suffix src (part_suffix part_no).

(** [f.read(n)] on a file opened for reading, at offset [pos]: at most
    [n] bytes for [0 <= n], the rest of the file for [n = -1].  The
    function is total: for [n < -1], where [BufferedReader.read] raises
    [ValueError], it also gives the rest of the file, and that value is
    not the code's; [split_file] is given [CHUNK_SIZE_BYTES], a positive
    constant.  Every read looks the file up as it is at the time of the
    call, where the open handle may answer from its buffer: the two
    differ only for a source that is overwritten while it is read, one
    named like one of its own parts. *)
Definition f_read (fs : gmap string bytes) (path : string) (pos : nat) (n : Z) : bytes :=
  let rest := drop pos (default [] (fs !! path)) in
  if n <? 0 then rest else take (Z.to_nat n) rest.

(** The [while True] loop of [split_file].  [fuel] bounds the number of
    iterations. *)
Fixpoint split_loop (fuel : nat) (src : string) (chunk_size : Z)
    (pos part_no : nat) (fs : gmap string bytes) (parts : list string)
    : result (gmap string bytes * list string) :=
  match fuel with
  | O => Raise LoopBound
  | S fuel' =>
      let data := f_read fs src pos chunk_size in
      match data with
      | [] => Ok (fs, parts)
      | _ :: _ =>
          let part := part_path src part_no in
          split_loop fuel' src chunk_size (pos + length data)%nat (S part_no)
            (<[part := data]> fs) (parts ++ [part])
      end
  end.

(** [split_file(src, chunk_size)]: the files after the call and the list
    of part paths.  Every iteration but the last reads at least one byte
    of a file of [length content] bytes, hence the bound. *)
Definition split_file (fs : gmap string bytes) (src : string) (chunk_size : Z)
    : result (gmap string bytes * list string) :=
  match fs !! src with
  | None => Raise FileNotFoundError
  | Some content => split_loop (S (length content)) src chunk_size 0 1 fs []
  end.

(** Reading the parts back, in list order. *)
Definition read_bytes (fs : gmap string bytes) (path : string) : bytes :=
  default [] (fs !! path).

Definition concat_parts (fs : gmap string bytes) (parts : list string) : bytes :=
  concat (read_bytes fs <$> parts).

(** [math.ceil(S / C)] on integers. *)
Definition ceil_div (s c : Z) : Z := (s + c - 1) / c.

(** ** The manifest ([csv.DictWriter], excel dialect, [utf-8-sig]) *)

Module Csv.

Definition quotechar : ascii := "034"%char.
Definition CR : ascii := "013"%char.
Definition LF : ascii := "010"%char.

(** Characters that make the writer quote a field (QUOTE_MINIMAL):
    the delimiter, the quote character, and those of the line
    terminator. *)
Definition special (c : ascii) : bool :=
  (Ascii.eqb c "," || Ascii.eqb c quotechar || Ascii.eqb c CR || Ascii.eqb c LF)%bool.

Fixpoint has_special (s : string) : bool :=
  match s with
  | EmptyString => false
  | String c rest => (special c || has_special rest)%bool
  end.

(** [doublequote]: every quote character inside a field is doubled. *)
Fixpoint escape (s : string) : string :=
  match s with
  | EmptyString => EmptyString
  | String c rest =>
      if Ascii.eqb c quotechar
      then String c (String c (escape rest))
      else String c (escape rest)
  end.

Definition field (s : string) : string :=
  if has_special s
  then String quotechar (escape s ++ String quotechar EmptyString)
  else s.

(** One record, ended by the dialect's line terminator. *)
Definition line (fields : list string) : string :=
  String.concat "," (field <$> fields) ++ String CR (String LF EmptyString).

(** The signature the [utf-8-sig] codec writes first. *)
Definition BOM : bytes := [Byte.xef; Byte.xbb; Byte.xbf].

(** The file [writeheader(); writerows(rows)] leaves: text is held as
    its UTF-8 bytes. *)
Definition render (fieldnames : list string) (rows : list (list string)) : bytes :=
  BOM ++ list_byte_of_string (line fieldnames ++ String.concat "" (line <$> rows)).

End Csv.

(** ** The record store and the transfer channel *)

Record recording_row : Set := {
  rec_task_id : string;
  rec_filename : string;
  rec_transcript : string;
  rec_created_at : string
}.

Record task_row : Set := {
  task_id : string;
  task_text : string;
  task_mode : string;
  task_surah : Z;
  task_ayah : Z;
  task_status : string
}.

(** A row of [batches].  [size_mb] is [round(bytes / 1_048_576, 2)], a
    float; the row keeps the byte count it is computed from. *)
Record batch_row : Set := {
  batch_name : string;
  file_count : nat;
  size_bytes : nat;
  parts : nat;
  uploaded_at : string;
  status : string
}.

(** [resp.data] as line 281 of [upload_batch] reads it,
    [resp.data["transcript"] if resp.data else ""]: the transcript of
    the row of task [id], and nothing when there is none.  This is the
    answer of the lookup wherever the lookup returns; where it raises
    ([single_execute] below: no row, or several rows), the value here
    is what line 281 provides for and not what the call does. *)
Definition select_transcript (recordings : list recording_row) (id : string)
    : option string :=
  rec_transcript <$> List.find (fun r => String.eqb (rec_task_id r) id) recordings.

(** [recordings.select("transcript").eq("task_id", id).single().execute()],
    lines 274 to 280: [single()] asks the store for exactly one row, and
    [execute()] raises [APIError] when the query matches none or more
    than one. *)
Definition single_execute (recordings : list recording_row) (id : string)
    : result recording_row :=
  match List.filter (fun r => String.eqb (rec_task_id r) id) recordings with
  | [r] => Ok r
  | _ => Raise APIError
  end.

(** The two captions, by what they are built from. *)
Inductive caption : Set :=
| BatchCaption (timestamp : string) (recordings : nat) (zip_size : nat) (i total : nat)
| PartCaption (i total : nat) (name : string) (part_size : nat).

(** One [bot.send_document] call. *)
Record send_call : Set := {
  sc_filename : string;
  sc_document : bytes;
  sc_caption : caption;
  reply_to_message_id : option Z
}.

(** ** The world *)

(** [scratch]: the regular files of [TEMP_DIR], by name; [tmp]: those of
    [/tmp], where the archive and its parts live; the three tables; the
    log of calls made on the channel. *)
Record world : Type := {
  scratch : gmap string bytes;
  tmp : gmap string bytes;
  recordings : list recording_row;
  tasks : list task_row;
  batches : list batch_row;
  sent : list send_call
}.

Definition set_scratch (f : gmap string bytes) (w : world) : world :=
  {| scratch := f; tmp := tmp w; recordings := recordings w;
     tasks := tasks w; batches := batches w; sent := sent w |}.

Definition set_tmp (f : gmap string bytes) (w : world) : world :=
  {| scratch := scratch w; tmp := f; recordings := recordings w;
     tasks := tasks w; batches := batches w; sent := sent w |}.

Definition log_call (c : send_call) (w : world) : world :=
  {| scratch := scratch w; tmp := tmp w; recordings := recordings w;
     tasks := tasks w; batches := batches w; sent := sent w ++ [c] |}.

Definition insert_batch (b : batch_row) (w : world) : world :=
  {| scratch := scratch w; tmp := tmp w; recordings := recordings w;
     tasks := tasks w; batches := batches w ++ [b]; sent := sent w |}.

Definition insert_recording (r : recording_row) (w : world) : world :=
  {| scratch := scratch w; tmp := tmp w; recordings := recordings w ++ [r];
     tasks := tasks w; batches := batches w; sent := sent w |}.

Definition set_tasks (t : list task_row) (w : world) : world :=
  {| scratch := scratch w; tmp := tmp w; recordings := recordings w;
     tasks := t; batches := batches w; sent := sent w |}.

(** [get_batch_size()]: the sizes of the files of [TEMP_DIR], summed. *)
Definition get_batch_size (w : world) : Z :=
  map_fold (fun _ content acc => Z.of_nat (length content) + acc) 0 (scratch w).

(** [sorted(...)] on names. *)
Definition sorted (names : list string) : list string := merge_sort String.le names.

(** [sorted(TEMP_DIR.glob("*.wav"))] *)
Definition wav_files (w : world) : list string :=
  sorted (List.filter (Path.ends_with ".wav") (map_to_list (scratch w)).*1).

(** [sorted(TEMP_DIR.iterdir())] *)
Definition iterdir_sorted (w : world) : list string :=
  sorted (map_to_list (scratch w)).*1.

(** The manifest rows: one per recording, with the transcript the store
    has for the file's stem, or the empty string.  These are the rows
    of a run whose lookups all return ([fetch_rows] below gives the
    same rows then, and an error otherwise). *)
Definition manifest_row (w : world) (wav : string) : string * string :=
  (wav, default "" (select_transcript (recordings w) (Path.stem wav))).

Definition manifest_rows (w : world) : list (string * string) :=
  manifest_row w <$> wav_files w.

(** Lines 271 to 282 with the lookup as the client answers it: the
    loop stops at the first recording whose lookup raises, before
    anything is written. *)
Fixpoint lookup_rows (recordings : list recording_row) (wavs : list string)
    : result (list (string * string)) :=
  match wavs with
  | [] => Ok []
  | wav :: rest =>
      r ← single_execute recordings (Path.stem wav);
      rows ← lookup_rows recordings rest;
      Ok ((wav, rec_transcript r) :: rows)
  end.

Definition fetch_rows (w : world) : result (list (string * string)) :=
  lookup_rows (recordings w) (wav_files w).

Definition fieldnames : list string := ["filename"; "raw_transcript"].

Definition manifest (rows : list (string * string)) : bytes :=
  Csv.render fieldnames ((fun r => [r.1; r.2]) <$> rows).

Definition meta_name : string := "metadata.csv".

Definition zip_name (timestamp : string) : string := "batch_" ++ timestamp ++ ".zip".

(** ** Settings *)

Record settings : Set := {
  BATCH_SIZE_BYTES : Z;   (* trigger threshold *)
  CHUNK_SIZE_BYTES : Z    (* part ceiling *)
}.

(** The constants of [main.py]. *)
Definition deployed : settings :=
  {| BATCH_SIZE_BYTES := 500 * 1024 * 1024;
     CHUNK_SIZE_BYTES := 45 * 1024 * 1024 |}.

(** How [upload_batch] ends: it returns after the ledger write and the
    cleanup, or from its [except] branch, entered on part [i]. *)
Inductive ending : Set :=
| Committed
| Aborted (i : nat).

(** The locals of [upload_batch] that are set before the upload loop. *)
Record locals : Set := {
  l_timestamp : string;
  l_zip_path : string;
  l_rows : list (string * string);
  l_zip_size : nat;
  l_parts : list string;
  l_total_parts : nat
}.

(** The locals of the loop, kept while [upload_batch] waits in
    [await bot.send_document(...)] for part [s_i]. *)
Record suspended : Set := {
  s_locals : locals;
  s_i : nat;
  s_part : string;
  s_rest : list string;
  s_first_message_id : option Z
}.

(** A task made by [asyncio.create_task(upload_batch())]. *)
Inductive task_state : Set :=
| Fresh
| Awaiting (s : suspended)
| Finished (e : ending)
| Crashed (e : error).

(** What [submit] answers: the 400 of the content-type check, or the
    200 at its end.  [batch_bytes] is the total computed at line 403;
    the response carries it as [batch_mb], that is
    [round(batch_bytes / 1_048_576, 2)]. *)
Inductive response : Set :=
| BadRequest
| Accepted (task_id : string) (batch_bytes : Z).

(** The process: the world, [upload_lock], and the tasks created so far
    in creation order. *)
Record system : Type := {
  sys_world : world;
  upload_lock : bool;
  promotions : list task_state
}.

(** What the event loop runs next.  [Submit]: a [/submit] request, from
    its content-type check to its response.  [Start j]: task [j] runs
    from the top of [upload_batch] to its first [await] (or to its end).
    [Deliver j answer]: the [send_document] call task [j] waits for
    returns a message id or raises, and the task runs to its next
    [await] (or to its end).  [now] and [timestamp] are the clock
    readings taken in the step. *)
Inductive event : Type :=
| Submit (content_type task_id transcript : string) (audio : bytes) (now : string)
| Start (j : nat) (timestamp now : string)
| Deliver (j : nat) (answer : option Z) (now : string).

Definition ALLOWED : list string :=
  ["audio/wav"; "audio/wave"; "audio/x-wav"; "application/octet-stream"].

Section Pipeline.

Variable cfg : settings.

(** [zipfile.ZipFile(..., compression=ZIP_STORED)]: the archive bytes
    of one run, for the entries written, in order.  The container
    format is the library's.  It also records each entry's modification
    time, which is not part of the world here: the bytes of two runs
    over equal entries may differ, and no statement below sets the
    archive of one run against that of another. *)
Variable zip_stored : list (string * bytes) -> bytes.

(** *** [upload_batch], steps 1 to 3 *)

(** Step 1: the manifest is written into [TEMP_DIR]. *)
Definition write_manifest (w : world) : world :=
  set_scratch (<[meta_name := manifest (manifest_rows w)]> (scratch w)) w.

(** Step 2: every item of [TEMP_DIR], in sorted order, goes into the
    archive under its name. *)
Definition zip_entries (w : world) : list (string * bytes) :=
  (fun item => (item, read_bytes (scratch w) item)) <$> iterdir_sorted w.

Definition write_zip (zip_path : string) (w : world) : world :=
  set_tmp (<[zip_path := zip_stored (zip_entries w)]> (tmp w)) w.

(** Steps 1 and 2. *)
Definition pack (timestamp : string) (w : world) : world :=
  write_zip (zip_name timestamp) (write_manifest w).

(** The archive that step 2 writes, and the number of parts that
    step 3 cuts it into. *)
Definition archive_bytes (w : world) : bytes :=
  zip_stored (zip_entries (write_manifest w)).

Definition part_count (w : world) : Z :=
  ceil_div (Z.of_nat (length (archive_bytes w))) (CHUNK_SIZE_BYTES cfg).

Definition archive (timestamp : string) (w : world) : result (world * locals) :=
  let zip_path := zip_name timestamp in
  let rows := manifest_rows w in
  let w2 := pack timestamp w in
  let zip_size := length (read_bytes (tmp w2) zip_path) in
  '(fs, part_paths) ← split_file (tmp w2) zip_path (CHUNK_SIZE_BYTES cfg);
  Ok (set_tmp fs w2,
      {| l_timestamp := timestamp; l_zip_path := zip_path; l_rows := rows;
         l_zip_size := zip_size; l_parts := part_paths;
         l_total_parts := length part_paths |}).

(** *** Step 4: one turn of the loop, cut at the [await] *)

Definition make_caption (loc : locals) (i : nat) (part : string) (part_size : nat)
    : caption :=
  if (i =? 1)%nat
  then BatchCaption (l_timestamp loc) (length (l_rows loc)) (l_zip_size loc)
         i (l_total_parts loc)
  else PartCaption i (l_total_parts loc) part part_size.

(** From [part.stat()] to the call.  [None]: the part is not there and
    [stat] raises. *)
Definition send_part (loc : locals) (i : nat) (part : string)
    (first_message_id : option Z) (w : world) : option world :=
  match tmp w !! part with
  | None => None
  | Some data =>
      Some (log_call
              {| sc_filename := part;
                 sc_document := data;
                 sc_caption := make_caption loc i part (length data);
                 reply_to_message_id :=
                   if (1 <? i)%nat then first_message_id else None |} w)
  end.

(** From the answer to the end of the turn.  [None]: the call raised,
    or [part.unlink()] did. *)
Definition sent_part (i : nat) (part : string) (first_message_id : option Z)
    (answer : option Z) (w : world) : option (world * option Z) :=
  match answer with
  | None => None
  | Some message_id =>
      let first := if (i =? 1)%nat then Some message_id else first_message_id in
      match tmp w !! part with
      | None => None
      | Some _ => Some (set_tmp (delete part (tmp w)) w, first)
      end
  end.

(** The [except] branch: every part and the archive are unlinked
    ([missing_ok]). *)
Definition cleanup (loc : locals) (w : world) : world :=
  set_tmp (delete (l_zip_path loc)
             (foldl (fun fs p => delete p fs) (tmp w) (l_parts loc))) w.

(** The row of step 5. *)
Definition batch_record (loc : locals) (now : string) : batch_row :=
  {| batch_name := l_zip_path loc;
     file_count := length (l_rows loc);
     size_bytes := l_zip_size loc;
     parts := l_total_parts loc;
     uploaded_at := now;
     status := "uploaded" |}.

(** Steps 5 and 6: the ledger write, then the archive is unlinked and
    [TEMP_DIR] removed and made again, empty. *)
Definition commit (loc : locals) (now : string) (w : world) : world :=
  let w1 := insert_batch (batch_record loc now) w in
  let w2 := set_tmp (delete (l_zip_path loc) (tmp w1)) w1 in
  set_scratch ∅ w2.

(** *** [upload_batch] run to its end

    [chan i] is the channel's answer to the transfer of part [i]: a
    message id, or nothing when the call raises. *)
Fixpoint upload_loop (chan : nat -> option Z) (loc : locals) (now : string)
    (i : nat) (remaining : list string) (first_message_id : option Z)
    (w : world) : world * ending :=
  match remaining with
  | [] => (commit loc now w, Committed)
  | part :: rest =>
      match send_part loc i part first_message_id w with
      | None => (cleanup loc w, Aborted i)
      | Some w1 =>
          match sent_part i part first_message_id (chan i) w1 with
          | None => (cleanup loc w1, Aborted i)
          | Some (w2, first) => upload_loop chan loc now (S i) rest first w2
          end
      end
  end.

Definition upload_batch (chan : nat -> option Z) (timestamp now : string)
    (w : world) : result (world * ending) :=
  '(w1, loc) ← archive timestamp w;
  Ok (upload_loop chan loc now 1 (l_parts loc) None w1).

(** [upload_batch] from its first line, the lookups of lines 271 to 282
    included.  They stand before the [try] of line 306: an error there
    ends the call with nothing written. *)
Definition upload_batch_with_lookups (chan : nat -> option Z)
    (timestamp now : string) (w : world) : result (world * ending) :=
  _ ← fetch_rows w;
  upload_batch chan timestamp now w.

(** *** [upload_batch] as a task of the event loop *)

Definition next_part (loc : locals) (now : string) (i : nat)
    (remaining : list string) (first_message_id : option Z) (w : world)
    : world * task_state :=
  match remaining with
  | [] => (commit loc now w, Finished Committed)
  | part :: rest =>
      match send_part loc i part first_message_id w with
      | None => (cleanup loc w, Finished (Aborted i))
      | Some w1 =>
          (w1, Awaiting {| s_locals := loc; s_i := i; s_part := part;
                           s_rest := rest;
                           s_first_message_id := first_message_id |})
      end
  end.

Definition upload_batch_start (timestamp now : string) (w : world)
    : world * task_state :=
  match archive timestamp w with
  | Raise e => (w, Crashed e)
  | Ok (w1, loc) => next_part loc now 1 (l_parts loc) None w1
  end.

(** The same with the lookups of lines 271 to 282 included: the task
    ends with the error of the first lookup that raises. *)
Definition upload_batch_start_with_lookups (timestamp now : string) (w : world)
    : world * task_state :=
  match fetch_rows w with
  | Raise e => (w, Crashed e)
  | Ok _ => upload_batch_start timestamp now w
  end.

Definition upload_batch_resume (s : suspended) (answer : option Z)
    (now : string) (w : world) : world * task_state :=
  match sent_part (s_i s) (s_part s) (s_first_message_id s) answer w with
  | None => (cleanup (s_locals s) w, Finished (Aborted (s_i s)))
  | Some (w2, first) => next_part (s_locals s) now (S (s_i s)) (s_rest s) first w2
  end.

(** The task run alone: every call it waits for is answered by
    [chan] at once.  [fuel] bounds the number of answers. *)
Fixpoint drive (chan : nat -> option Z) (now : string) (fuel : nat)
    (t : task_state) (w : world) : world * task_state :=
  match fuel, t with
  | S fuel', Awaiting s =>
      let '(w1, t1) := upload_batch_resume s (chan (s_i s)) now w in
      drive chan now fuel' t1 w1
  | _, _ => (w, t)
  end.

(** *** [submit] *)

(** [f"{task_id}.wav"], the name that line 391 joins to [TEMP_DIR]. *)
Definition dest_name (task_id : string) : string := task_id ++ ".wav".

(** The identifiers for which [TEMP_DIR / f"{task_id}.wav"] is the file
    [<task_id>.wav] of [TEMP_DIR] itself, and can be opened: no path
    separator, no NUL, and a name of at most 255 bytes.  With a
    separator the joined path is another one: pathlib takes ["./a"] to
    [a.wav], an absolute identifier replaces [TEMP_DIR], ["../a"] leaves
    it, and ["sub/a"] names a directory that is not there.  [get_task]
    issues uuid4 strings, which are plain; [submit] takes the form
    field as it comes. *)
Definition plain_id (task_id : string) : bool :=
  forallb (fun c => negb (Ascii.eqb c "/") && negb (Ascii.eqb c "000"))
    (list_ascii_of_string task_id)
  && (String.length (dest_name task_id) <=? 255)%nat.

Definition mark_recorded (id : string) (rows : list task_row) : list task_row :=
  (fun t =>
     if String.eqb (task_id t) id
     then {| task_id := task_id t; task_text := task_text t;
             task_mode := task_mode t; task_surah := task_surah t;
             task_ayah := task_ayah t; task_status := "recorded" |}
     else t) <$> rows.

Definition set_world (w : world) (s : system) : system :=
  {| sys_world := w; upload_lock := upload_lock s; promotions := promotions s |}.

Definition set_lock (b : bool) (s : system) : system :=
  {| sys_world := sys_world s; upload_lock := b; promotions := promotions s |}.

Definition create_task (s : system) : system :=
  {| sys_world := sys_world s; upload_lock := upload_lock s;
     promotions := promotions s ++ [Fresh] |}.

(** [async with upload_lock: if get_batch_size() >= BATCH_SIZE_BYTES:
    asyncio.create_task(upload_batch())].  [None]: the lock is held and
    the request would wait for it. *)
Definition gated_section (s : system) : option system :=
  if upload_lock s then None
  else
    let s1 := set_lock true s in
    let s2 :=
      if BATCH_SIZE_BYTES cfg <=? get_batch_size (sys_world s1)
      then create_task s1 else s1 in
    Some (set_lock false s2).

(** The writes of an accepted request: the recording, its row, the
    task's status.  The awaits of the file write are taken in one
    step.  The recording is keyed by [dest_name], the file written for
    a [plain_id]; for any other identifier the file the code opens (or
    fails to open) is not the one keyed here, and the statements on
    which that bears are made for plain identifiers. *)
Definition record_submission (id transcript : string) (audio : bytes)
    (now : string) (w : world) : world :=
  let w1 := set_scratch (<[dest_name id := audio]> (scratch w)) w in
  let w2 :=
    insert_recording
      {| rec_task_id := id; rec_filename := dest_name id;
         rec_transcript := transcript; rec_created_at := now |} w1 in
  set_tasks (mark_recorded id (tasks w2)) w2.

(** The request, from its content-type check to its response. *)
Definition submit (content_type id transcript : string) (audio : bytes)
    (now : string) (s : system) : option (system * response) :=
  if negb (existsb (String.eqb content_type) ALLOWED)
  then Some (s, BadRequest)
  else
    let s1 := set_world (record_submission id transcript audio now (sys_world s)) s in
    let batch_bytes := get_batch_size (sys_world s1) in
    if BATCH_SIZE_BYTES cfg <=? batch_bytes
    then s2 ← gated_section s1; Some (s2, Accepted id batch_bytes)
    else Some (s1, Accepted id batch_bytes).

(** *** The event loop *)

Definition set_promotion (j : nat) (t : task_state) (w : world) (s : system)
    : system :=
  {| sys_world := w; upload_lock := upload_lock s;
     promotions := <[j := t]> (promotions s) |}.

(** One step; [None] when the event cannot happen in that state. *)
Definition step (s : system) (e : event) : option system :=
  match e with
  | Submit content_type id transcript audio now =>
      fst <$> submit content_type id transcript audio now s
  | Start j timestamp now =>
      match promotions s !! j with
      | Some Fresh =>
          let '(w, t) := upload_batch_start timestamp now (sys_world s) in
          Some (set_promotion j t w s)
      | _ => None
      end
  | Deliver j answer now =>
      match promotions s !! j with
      | Some (Awaiting susp) =>
          let '(w, t) := upload_batch_resume susp answer now (sys_world s) in
          Some (set_promotion j t w s)
      | _ => None
      end
  end.

Fixpoint run (s : system) (events : list event) : option system :=
  match events with
  | [] => Some s
  | e :: rest => s1 ← step s e; run s1 rest
  end.



(** A promotion is in flight from its creation to its end. *)
Definition in_flight (t : task_state) : bool :=
  match t with
  | Fresh | Awaiting _ => true
  | Finished _ | Crashed _ => false
  end.

Definition promotions_in_flight (s : system) : nat :=
  length (List.filter in_flight (promotions s)).

End Pipeline.

(** The process at start: [TEMP_DIR] exists (and may hold files), the
    lock is free, no task has been created. *)
Definition boot (w : world) : system :=
  {| sys_world := w; upload_lock := false; promotions := [] |}.


(** ** Sample inputs, for the worked instances below *)

Module Sample.

Definition bs (s : string) : bytes := list_byte_of_string s.

(** Small limits, so that a few bytes cross them. *)
Definition small : settings :=
  {| BATCH_SIZE_BYTES := 4; CHUNK_SIZE_BYTES := 20 |}.

(** A stand-in container: names and contents, one after the other. *)
Definition container (entries : list (string * bytes)) : bytes :=
  concat ((fun e : string * bytes => bs e.1 ++ e.2) <$> entries)%list.


Definition store : list recording_row :=
  [ {| rec_task_id := "a"; rec_filename := "a.wav";
       rec_transcript := "alif ba"; rec_created_at := "t0" |} ].

(** [b.wav], [a.wav] and [c.wav] in the scratch directory; the store
    knows the transcript of [a] only. *)
Definition dir : world :=
  {| scratch := <["b.wav" := bs "BB"]> (<["a.wav" := bs "A"]> (<["c.wav" := bs "CCC"]> ∅));
     tmp := ∅; recordings := store; tasks := []; batches := []; sent := [] |}.

Definition always (i : nat) : option Z := Some (100 + Z.of_nat i).

Definition fails_at (k i : nat) : option Z :=
  if (i =? k)%nat then None else Some (100 + Z.of_nat i).

(** The world a run of [upload_batch] leaves. *)
Definition left_by (r : result (world * ending)) : world :=
  match r with
  | Ok (w, _) => w
  | Raise _ => dir
  end.

(** The state a run of the event loop reaches from [boot dir]. *)
Definition reached (r : option system) : system := default (boot dir) r.

(** A request that crosses the small threshold, the start of the
    promotion it triggers, and the failure of its first transfer. *)
Definition request_d : event := Submit "audio/wav" "d" "dal" (bs "D") "t1".
Definition request_e : event := Submit "audio/wav" "e" "ha" (bs "E") "t3".
Definition start_0 : event := Start 0 "T" "t2".
Definition failure_0 : event := Deliver 0 None "t4".

End Sample.

(** ** Sizes of the parts *)

(** The sizes of the parts of [r] bytes cut at [c]: full parts, then the
    rest if there is one. *)
Definition part_sizes (c r : nat) : list nat :=
  replicate (r / c) c ++ (if (r mod c =? 0)%nat then [] else [(r mod c)%nat]).

(** ** The calls on the channel *)

(** The call the loop of [upload_batch] makes for part [i], whose file
    holds [data], when the first call returned [first_id]. *)
Definition call_for (loc : locals) (first_id : option Z) (i : nat)
    (part : string) (data : bytes) : send_call :=
  {| sc_filename := part;
     sc_document := data;
     sc_caption := make_caption loc i part (length data);
     reply_to_message_id := if (1 <? i)%nat then first_id else None |}.

(** ** Text cleaning ([clean_text])

    A Python [str] is the list of its code points. *)

Module Text.

Local Open Scope N_scope.

Abbreviation ustr := (list N).

Definition SPACE : N := 0x20.

Definition in_range (lo hi c : N) : bool := (lo <=? c) && (c <=? hi).

(** The class of the first [re.sub]: end-of-ayah and rub-el-hizb signs,
    ornate parentheses, Arabic-Indic and extended digits, brackets. *)
Definition ornament (c : N) : bool :=
  (c =? 0x06DD) || (c =? 0x06DE) || (c =? 0xFD3E) || (c =? 0xFD3F)
  || in_range 0x0660 0x0669 c || in_range 0x06F0 0x06F9 c
  || (c =? 0x28) || (c =? 0x29) || (c =? 0x5B) || (c =? 0x5D)
  || (c =? 0x7B) || (c =? 0x7D).

(** The characters [KEEP_PATTERN] does not match: it removes every
    other one. *)
Definition kept (c : N) : bool :=
  in_range 0x0600 0x0605 c || in_range 0x0610 0x061A c || (c =? 0x061C)
  || in_range 0x0620 0x063A c || in_range 0x0640 0x065F c
  || in_range 0x0670 0x06DC c || in_range 0x06DF 0x06E8 c
  || in_range 0x06EA 0x06ED c || in_range 0xFB50 0xFDFF c
  || in_range 0xFE70 0xFEFF c || (c =? SPACE).

(** [re.sub(r" +", " ", raw)]: every run of spaces becomes one space.
    [in_run] tells that the character before was a space. *)
Fixpoint squeeze_go (in_run : bool) (s : ustr) : ustr :=
  match s with
  | [] => []
  | c :: rest =>
      if c =? SPACE
      then (if in_run then squeeze_go true rest else SPACE :: squeeze_go true rest)
      else c :: squeeze_go false rest
  end.

Definition squeeze (s : ustr) : ustr := squeeze_go false s.

(** [str.isspace] on one character: the whitespace of [str.strip()] and
    [str.split()]. *)
Definition isspace (c : N) : bool :=
  in_range 0x09 0x0D c || in_range 0x1C 0x20 c || (c =? 0x85) || (c =? 0xA0)
  || (c =? 0x1680) || in_range 0x2000 0x200A c || (c =? 0x2028)
  || (c =? 0x2029) || (c =? 0x202F) || (c =? 0x205F) || (c =? 0x3000).

Fixpoint lstrip (s : ustr) : ustr :=
  match s with
  | [] => []
  | c :: rest => if isspace c then lstrip rest else s
  end.

Definition rstrip (s : ustr) : ustr := reverse (lstrip (reverse s)).

(** [str.strip()] *)
Definition strip (s : ustr) : ustr := rstrip (lstrip s).

Definition clean_text (raw : ustr) : ustr :=
  let raw1 := List.filter (fun c => negb (ornament c)) raw in
  let raw2 := List.filter kept raw1 in
  strip (squeeze raw2).

(** Two spaces in a row somewhere in [s]. *)
Fixpoint has_run (s : ustr) : bool :=
  match s with
  | a :: (b :: _) as rest => ((a =? SPACE) && (b =? SPACE)) || has_run rest
  | _ => false
  end.

(** A character that passes both filters. *)
Definition clean_char (c : N) : Prop := kept c = true /\ ornament c = false.

End Text.

(** ** The Quran data ([load_quran]) *)

Module Quran.

(** An element of a surah's list in the nested format:
    [{"number": ..., "text": ...}]. *)
Record entry : Set := {
  number : Z;
  entry_text : list N
}.

(** A flat record: [{"surah": ..., "ayah": ..., "text": ...}]. *)
Record verse : Set := {
  surah : Z;
  ayah : Z;
  text : list N
}.

(** What [json.load] returns: a list (format A) or a dict keyed by surah
    number strings (format B), the items in the order of the file. *)
Inductive document : Set :=
| FlatList (l : list verse)
| BySurah (d : list (string * list entry)).

Inductive failure : Set :=
| RuntimeError   (* the file is not there *)
| ValueError.    (* [int] on a key that is no number *)

Inductive loaded : Set :=
| Loaded (l : list verse)
| Failed (e : failure).

(** The sort key [(x["surah"], x["ayah"])], compared as tuples. *)
Definition key_le (a b : verse) : bool :=
  (surah a <? surah b) || ((surah a =? surah b) && (ayah a <=? ayah b)).

(** [list.sort(key=...)] is stable: an element stays before the later
    elements of the same key. *)
Fixpoint insert_by_key (x : verse) (l : list verse) : list verse :=
  match l with
  | [] => [x]
  | y :: rest => if key_le x y then x :: l else y :: insert_by_key x rest
  end.

Definition sort_by_key (l : list verse) : list verse := foldr insert_by_key [] l.

Section Load.

(** [int(surah_str)]; nothing when it raises. *)
Variable int : string -> option Z.

(** The inner loop: [int] is called once per ayah, so a key with an
    empty list is never parsed. *)
Definition surah_verses (surah_str : string) (ayahs : list entry) : option (list verse) :=
  mapM (fun a => n ← int surah_str;
                 Some {| surah := n; ayah := number a; text := entry_text a |}) ayahs.

(** The two loops. *)
Fixpoint flatten (d : list (string * list entry)) : option (list verse) :=
  match d with
  | [] => Some []
  | (surah_str, ayahs) :: rest =>
      vs ← surah_verses surah_str ayahs;
      flat ← flatten rest;
      Some (vs ++ flat)%list
  end.

(** [load_quran()], from the content of [quran_full.json] (nothing when
    the file does not exist). *)
Definition load_quran (file : option document) : loaded :=
  match file with
  | None => Failed RuntimeError
  | Some (FlatList l) => Loaded l
  | Some (BySurah d) =>
      match flatten d with
      | None => Failed ValueError
      | Some flat => Loaded (sort_by_key flat)
      end
  end.

End Load.

End Quran.

(** ** Task sampling ([get_random_task], [get_task]) *)

Module Sampling.

(** [str.split()]: the maximal runs of characters that are not
    whitespace.  [cur] is the word being read, last character first. *)
Fixpoint split_go (cur : list N) (s : list N) : list (list N) :=
  match s with
  | [] => match cur with [] => [] | _ :: _ => [reverse cur] end
  | c :: rest =>
      if Text.isspace c
      then match cur with
           | [] => split_go [] rest
           | _ :: _ => reverse cur :: split_go [] rest
           end
      else split_go (c :: cur) rest
  end.

Definition split (s : list N) : list (list N) := split_go [] s.

(** [sep.join(words)] *)
Definition join (sep : list N) (words : list (list N)) : list N :=
  match words with
  | [] => []
  | w :: rest => (w ++ concat ((fun x => sep ++ x) <$> rest))%list
  end.

Inductive mode : Set := full_verse | bridging | random_window.

(** What one call draws.  [roll] is a float: the embedding takes the
    branch it selects ([roll < 0.40], [roll < 0.70], else).  The other
    draws are the values [randint] and [uuid4] return. *)
Record draws : Set := {
  roll : mode;
  idx : nat;          (* randint(0, len(QURAN_DATA) - 1) *)
  win_draw : nat;     (* randint(7, 15) *)
  start_draw : nat;   (* randint(0, max(0, wlen - win)) *)
  uuid : string       (* str(uuid.uuid4()) *)
}.

Record task : Set := {
  t_task_id : string;
  t_text : list N;
  t_mode : mode;
  t_surah : Z;
  t_ayah : Z
}.

(** [tail + head] of the bridging mode. *)
Definition bridging_words (curr next : list N) : list (list N) :=
  let words_curr := split curr in
  let words_next := split next in
  (drop (length words_curr - 5) words_curr ++ take 5 words_next)%list.

(** [words[start : start + win]] of the window mode. *)
Definition window_words (t : list N) (drawn start : nat) : list (list N) :=
  let words := split t in
  let wlen := length words in
  let win := Nat.min drawn wlen in
  take win (drop start words).

(** [get_random_task()]; nothing when an index is out of range (with no
    data loaded, [randint] itself raises). *)
Definition get_random_task (QURAN_DATA : list Quran.verse) (d : draws) : option task :=
  ayah ← QURAN_DATA !! idx d;
  raw ← match roll d with
        | full_verse => Some (Quran.text ayah)
        | bridging =>
            let next_idx := Nat.min (idx d + 1) (length QURAN_DATA - 1) in
            next_ayah ← QURAN_DATA !! next_idx;
            Some (join [Text.SPACE]
                    (bridging_words (Quran.text ayah) (Quran.text next_ayah)))
        | random_window =>
            Some (join [Text.SPACE]
                    (window_words (Quran.text ayah) (win_draw d) (start_draw d)))
        end;
  Some {| t_task_id := uuid d;
          t_text := Text.clean_text raw;
          t_mode := roll d;
          t_surah := Quran.surah ayah;
          t_ayah := Quran.ayah ayah |}.

Definition mode_name (m : mode) : string :=
  match m with
  | full_verse => "full_verse"
  | bridging => "bridging"
  | random_window => "random_window"
  end.

Section Tasks.

(** The text as the store holds it. *)
Variable encode : list N -> string.

Definition pending_row (t : task) : task_row :=
  {| task_id := t_task_id t;
     task_text := encode (t_text t);
     task_mode := mode_name (t_mode t);
     task_surah := t_surah t;
     task_ayah := t_ayah t;
     task_status := "pending" |}.

(** [get_task()]: the task is drawn, its row is inserted, the task is
    returned. *)
Definition get_task (QURAN_DATA : list Quran.verse) (d : draws) (w : world)
    : option (world * task) :=
  t ← get_random_task QURAN_DATA d;
  Some (set_tasks (tasks w ++ [pending_row t]) w, t).

End Tasks.

End Sampling.

(** ** More sample inputs *)

Module Sample2.





(** The sample directory with a row in the store for each of its
    recordings. *)
Definition listed : world :=
  {| scratch := scratch Sample.dir; tmp := ∅;
     recordings :=
       [ {| rec_task_id := "a"; rec_filename := "a.wav";
            rec_transcript := "alif"; rec_created_at := "t0" |};
         {| rec_task_id := "b"; rec_filename := "b.wav";
            rec_transcript := "ba"; rec_created_at := "t0" |};
         {| rec_task_id := "c"; rec_filename := "c.wav";
            rec_transcript := "ta"; rec_created_at := "t0" |} ];
     tasks := []; batches := []; sent := [] |}.

(** The world an aborted attempt leaves behind. *)
Definition after_abort : world :=
  Sample.left_by
    (upload_batch_with_lookups Sample.small Sample.container (Sample.fails_at 2)
       "T" "t9" listed).

(** Decimal keys, for [int]. *)
Definition decimal (s : string) : option Z :=
  n ← NilEmpty.uint_of_string s; Some (Z.of_nat (Nat.of_uint n)).

Definition ba : N := 0x0628.
Definition sin : N := 0x0633.
Definition mim : N := 0x0645.

(** Six one-letter words. *)
Definition six_words : list N :=
  [ba; 0x20; sin; 0x20; mim; 0x20; ba; 0x20; sin; 0x20; mim]%N.

Definition nested : list (string * list Quran.entry) :=
  [ ("2", [ {| Quran.number := 2; Quran.entry_text := [sin] |};
            {| Quran.number := 1; Quran.entry_text := [ba] |} ]);
    ("1", [ {| Quran.number := 1; Quran.entry_text := six_words |} ]) ].

Definition verses : list Quran.verse :=
  [ {| Quran.surah := 1; Quran.ayah := 1; Quran.text := six_words |};
    {| Quran.surah := 2; Quran.ayah := 1; Quran.text := [ba] |};
    {| Quran.surah := 2; Quran.ayah := 2; Quran.text := [sin] |} ].

(** Bridging from the last record. *)
Definition draw_bridging : Sampling.draws :=
  {| Sampling.roll := Sampling.bridging; Sampling.idx := 2;
     Sampling.win_draw := 7; Sampling.start_draw := 0;
     Sampling.uuid := "id-1" |}.

Definition utf8_stub (t : list N) : string := "text".

End Sample2.

(** * Properties *)

Local Open Scope list_scope.

(** ** Strings and paths *)

Lemma string_app_cons (c : ascii) (a b : string) :
  String c a +:+ b = String c (a +:+ b).
Proof. done. Qed.

Lemma string_app_nil_l (b : string) : "" +:+ b = b.
Proof. done. Qed.

Lemma substring_all (s : string) : substring 0 (String.length s) s = s.
Proof. induction s as [|c s IH]; simpl; [done | by rewrite IH]. Qed.

Lemma substring_app_head (b s : string) :
  substring 0 (String.length b) (b +:+ s) = b.
Proof.
  induction b as [|c b IH].
  - by destruct s.
  - rewrite string_app_cons. simpl. by rewrite IH.
Qed.

Lemma substring_app_tail (b s : string) (n : nat) :
  substring (String.length b) n (b +:+ s) = substring 0 n s.
Proof.
  induction b as [|c b IH]; [done|].
  rewrite string_app_cons. simpl. exact IH.
Qed.

Lemma substring_split (s : string) (i : nat) :
  (i <= String.length s)%nat ->
  substring 0 i s +:+ substring i (String.length s - i) s = s.
Proof.
  revert i. induction s as [|c s IH]; intros [|i] Hi; simpl in *.
  - done.
  - lia.
  - by rewrite substring_all.
  - rewrite string_app_cons, IH; [done | lia].
Qed.

Lemma substring_length (s : string) (i n : nat) :
  (i + n <= String.length s)%nat -> String.length (substring i n s) = n.
Proof.
  revert i n. induction s as [|c s IH]; intros [|i] [|n] Hi; simpl in *;
    try done; try lia.
  all: try (rewrite IH; [done | lia]).
  all: apply IH; lia.
Qed.

Lemma string_app_length (a b : string) :
  String.length (a +:+ b) = (String.length a + String.length b)%nat.
Proof.
  induction a as [|c a IH]; [done|].
  rewrite string_app_cons. simpl. by rewrite IH.
Qed.


Lemma rfind_dot_bound (s : string) (i : nat) :
  Path.rfind_dot s = Some i -> (i < String.length s)%nat.
Proof.
  revert i. induction s as [|c s IH]; intros i; simpl; [done|].
  destruct (Path.rfind_dot s) as [k|].
  - intros [= <-]. specialize (IH k eq_refl). lia.
  - destruct (Ascii.eqb c "."); intros [= <-]. lia.
Qed.

Lemma rfind_dot_app (b r : string) :
  Path.rfind_dot r = None ->
  Path.rfind_dot (b +:+ String "." r) = Some (String.length b).
Proof.
  intros Hr. induction b as [|c b IH].
  - simpl. by rewrite Hr.
  - rewrite string_app_cons. simpl. by rewrite IH.
Qed.

Lemma string_app_nil_r (s : string) : s +:+ "" = s.
Proof.
  induction s as [|c s IH]; [done|]. by rewrite string_app_cons, IH.
Qed.

(** A name is its stem followed by its suffix. *)
Lemma name_split (name : string) :
  substring 0 (String.length name - String.length (Path.suffix name)) name
    +:+ Path.suffix name = name.
Proof.
  unfold Path.suffix, Path.suffix_index.
  destruct (Path.rfind_dot name) as [i|] eqn:Hi; simpl.
  - apply rfind_dot_bound in Hi.
    destruct ((0 <? i)%nat && (i <? String.length name - 1)%nat)%bool; simpl.
    + rewrite substring_length by lia.
      replace (String.length name - (String.length name - i))%nat with i by lia.
      apply substring_split. lia.
    + by rewrite Nat.sub_0_r, substring_all, string_app_nil_r.
  - by rewrite Nat.sub_0_r, substring_all, string_app_nil_r.
Qed.

Lemma with_suffix_split (name sfx : string) :
  Path.with_suffix name sfx
  = substring 0 (String.length name - String.length (Path.suffix name)) name +:+ sfx.
Proof.
  unfold Path.with_suffix. destruct (String.eqb_spec (Path.suffix name) "") as [E|E]; [|done].
  rewrite E. simpl. by rewrite Nat.sub_0_r, substring_all.
Qed.

(** ** Part names *)

Lemma of_uint_pad (k : nat) (d : Decimal.uint) :
  Nat.of_uint (Nat.iter k Decimal.D0 d) = Nat.of_uint d.
Proof. induction k as [|k IH]; simpl; [done|]. exact IH. Qed.

Lemma fmt_03d_inj (n m : nat) : fmt_03d n = fmt_03d m -> n = m.
Proof.
  unfold fmt_03d. intros H.
  apply (f_equal NilEmpty.uint_of_string) in H.
  rewrite !NilEmpty.usu in H. injection H as H.
  apply (f_equal Nat.of_uint) in H.
  by rewrite !of_uint_pad, !DecimalNat.Unsigned.of_to in H.
Qed.

Lemma part_suffix_inj (n m : nat) : part_suffix n = part_suffix m -> n = m.
Proof.
  unfold part_suffix. intros H. apply fmt_03d_inj.
  by apply (inj (String.app _)) in H.
Qed.

Lemma part_path_inj (src : string) (n m : nat) :
  part_path src n = part_path src m -> n = m.
Proof.
  unfold part_path. rewrite !with_suffix_split. intros H.
  apply part_suffix_inj. by apply (inj (String.app _)) in H.
Qed.

Lemma part_suffix_prefix (n : nat) : String.prefix ".part" (part_suffix n) = true.
Proof. unfold part_suffix. rewrite !string_app_cons, string_app_nil_l. simpl.
  by destruct (fmt_03d n).
Qed.

(** A source whose own suffix is not a part suffix is none of its parts. *)
Lemma part_path_ne_src (src : string) (n : nat) :
  String.prefix ".part" (Path.suffix src) = false ->
  part_path src n <> src.
Proof.
  unfold part_path. intros Hs H. rewrite with_suffix_split in H.
  set (st := substring 0 _ src) in H.
  assert (E : st +:+ part_suffix n = st +:+ Path.suffix src)
    by (rewrite H; symmetry; apply name_split).
  clear H. apply (inj (String.app _)) in E. rename E into H.
  rewrite <- H in Hs. by rewrite part_suffix_prefix in Hs.
Qed.

Lemma zip_name_suffix (timestamp : string) : Path.suffix (zip_name timestamp) = ".zip".
Proof.
  unfold zip_name, Path.suffix, Path.suffix_index.
  change ("batch_" +:+ timestamp +:+ ".zip")
    with (String "b" ("atch_" +:+ timestamp +:+ String "." "zip")).
  set (b := "atch_" +:+ timestamp).
  assert (E : Path.rfind_dot (String "b" (b +:+ String "." "zip"))
              = Some (S (String.length b))).
  { simpl. by rewrite rfind_dot_app. }
  replace ("atch_" +:+ timestamp +:+ String "." "zip") with (b +:+ String "." "zip")
    by (unfold b; simpl; done).
  rewrite E.
  assert (L : String.length (String "b" (b +:+ String "." "zip"))
              = (S (String.length b) + 4)%nat).
  { simpl. rewrite string_app_length. simpl. lia. }
  rewrite L.
  replace ((0 <? S (String.length b))%nat
           && (S (String.length b) <? S (String.length b) + 4 - 1)%nat)%bool with true.
  2:{ symmetry. apply andb_true_iff. split; apply Nat.ltb_lt; lia. }
  replace (S (String.length b) + 4 - S (String.length b))%nat with 4%nat by lia.
  change (String "b" (b +:+ String "." "zip")) with ((String "b" b) +:+ ".zip").
  change (S (String.length b)) with (String.length (String "b" b)).
  by rewrite substring_app_tail.
Qed.

(** ** The chunker *)

Lemma take_drop_length {A} (n : nat) (l : list A) :
  take n l ++ drop (length (take n l)) l = l.
Proof.
  rewrite length_take. destruct (Nat.min_spec n (length l)) as [[_ ->]|[H ->]].
  - apply take_drop.
  - by rewrite take_ge, drop_all, app_nil_r by lia.
Qed.

Lemma concat_parts_cons (fs : gmap string bytes) (p : string) (ps : list string) :
  concat_parts fs (p :: ps) = read_bytes fs p ++ concat_parts fs ps.
Proof. done. Qed.

Lemma ceil_div_0 (c : Z) : 0 < c -> ceil_div 0 c = 0.
Proof. intros Hc. unfold ceil_div. apply Z.div_small. lia. Qed.

Lemma ceil_div_step (r c : Z) :
  0 < c -> 0 < r -> ceil_div r c = 1 + ceil_div (r - Z.min c r) c.
Proof.
  intros Hc Hr. unfold ceil_div.
  destruct (Z.min_spec c r) as [[Hlt ->]|[Hle ->]].
  - replace (r + c - 1) with ((r - c + c - 1) + 1 * c) by lia.
    rewrite Z.div_add by lia. lia.
  - replace (r - r + c - 1) with (c - 1) by lia.
    rewrite (Z.div_small (c - 1)) by lia.
    replace (r + c - 1) with ((r - 1) + 1 * c) by lia.
    rewrite Z.div_add, Z.div_small by lia. lia.
Qed.

Lemma part_path_not_later (src : string) (n m k : nat) :
  (n < m)%nat -> part_path src n ∉ part_path src <$> seq m k.
Proof.
  intros Hn [j [E Hj]]%list_elem_of_fmap.
  apply part_path_inj in E. subst j.
  apply elem_of_seq in Hj. lia.
Qed.

Section Split.

Variables (src : string) (chunk_size : Z) (content : bytes).
Hypothesis chunk_pos : 0 < chunk_size.
Hypothesis src_not_part : String.prefix ".part" (Path.suffix src) = false.

Lemma f_read_src (fs : gmap string bytes) (pos : nat) :
  fs !! src = Some content ->
  f_read fs src pos chunk_size = take (Z.to_nat chunk_size) (drop pos content).
Proof.
  intros H. unfold f_read. rewrite H. simpl.
  destruct (Z.ltb_spec chunk_size 0); [lia | done].
Qed.

(** The loop from offset [pos] on: it ends, the parts it adds are
    numbered from [part_no] on, hold the rest of the source, and
    nothing else changes. *)
Lemma split_loop_spec (fuel : nat) :
  forall (pos part_no : nat) (fs : gmap string bytes) (acc : list string),
    fs !! src = Some content ->
    (pos <= length content)%nat ->
    (length content - pos < fuel)%nat ->
    exists fs' new,
      split_loop fuel src chunk_size pos part_no fs acc = Ok (fs', acc ++ new)
      /\ new = part_path src <$> seq part_no (length new)
      /\ concat_parts fs' new = drop pos content
      /\ Z.of_nat (length new)
         = ceil_div (Z.of_nat (length content - pos)) chunk_size
      /\ fs' !! src = Some content
      /\ (forall p, p ∉ new -> fs' !! p = fs !! p)
      /\ (forall p, p ∈ new -> is_Some (fs' !! p)).
Proof.
  induction fuel as [|fuel IH]; intros pos part_no fs acc Hsrc Hpos Hfuel; [lia|].
  simpl. rewrite (f_read_src _ _ Hsrc).
  destruct (take (Z.to_nat chunk_size) (drop pos content)) as [|b data] eqn:Hdata.
  - assert (Hnil : drop pos content = []).
    { destruct (drop pos content) as [|x l]; [done|].
      destruct (Z.to_nat chunk_size) eqn:E; [lia | done]. }
    assert (Hlen : length content = pos).
    { apply (f_equal length) in Hnil. rewrite length_drop in Hnil. simpl in Hnil. lia. }
    exists fs, []. rewrite app_nil_r. repeat split; try done.
    + rewrite Hlen, Nat.sub_diag. simpl. by rewrite ceil_div_0.
    + intros p Hp. by apply elem_of_nil in Hp.
  - set (d := b :: data) in *.
    assert (Hd : length d = Nat.min (Z.to_nat chunk_size) (length content - pos)).
    { rewrite <- Hdata, length_take, length_drop. done. }
    assert (Hd1 : (1 <= length d)%nat) by (simpl; lia).
    set (p1 := part_path src part_no).
    assert (Hp1 : p1 <> src) by (by apply part_path_ne_src).
    destruct (IH (pos + length d)%nat (S part_no) (<[p1 := d]> fs) (acc ++ [p1]))
      as (fs' & new & Hrun & Hnew & Hcat & Hcount & Hsrc' & Hframe & Hin).
    { by rewrite lookup_insert_ne. }
    { lia. }
    { lia. }
    assert (Hp1new : p1 ∉ new).
    { rewrite Hnew. apply part_path_not_later. lia. }
    assert (Hfs1 : fs' !! p1 = Some d).
    { rewrite Hframe by done. apply lookup_insert_eq. }
    exists fs', (p1 :: new). rewrite Hrun. repeat split.
    + by rewrite <- app_assoc.
    + simpl. unfold p1. f_equal. exact Hnew.
    + rewrite concat_parts_cons, Hcat.
      unfold read_bytes. rewrite Hfs1.
      change (default [] (Some d)) with d.
      rewrite <- drop_drop. clearbody d. subst d. apply take_drop_length.
    + rewrite length_cons, Nat2Z.inj_succ, Hcount.
      rewrite (ceil_div_step (Z.of_nat (length content - pos))) by lia.
      replace (Z.of_nat (length content - (pos + length d)))
        with (Z.of_nat (length content - pos)
              - Z.min chunk_size (Z.of_nat (length content - pos))) by lia.
      lia.
    + done.
    + intros p Hp. apply not_elem_of_cons in Hp as [Hne Hp].
      rewrite Hframe by done. by rewrite lookup_insert_ne.
    + intros p [->|Hp]%elem_of_cons; [by rewrite Hfs1 | by apply Hin].
Qed.

End Split.

(** [split_file] on a source that is none of its parts. *)
Lemma split_file_spec
    (fs : gmap string bytes) (src : string) (content : bytes) (chunk_size : Z) :
  fs !! src = Some content ->
  0 < chunk_size ->
  String.prefix ".part" (Path.suffix src) = false ->
  exists fs' part_paths,
    split_file fs src chunk_size = Ok (fs', part_paths)
    /\ part_paths = part_path src <$> seq 1 (length part_paths)
    /\ concat_parts fs' part_paths = content
    /\ Z.of_nat (length part_paths) = ceil_div (Z.of_nat (length content)) chunk_size
    /\ fs' !! src = Some content
    /\ (forall p, p ∉ part_paths -> fs' !! p = fs !! p)
    /\ (forall p, p ∈ part_paths -> is_Some (fs' !! p)).
Proof.
  intros Hsrc Hc Hs. unfold split_file. rewrite Hsrc.
  destruct (split_loop_spec src chunk_size content Hc Hs
              (S (length content)) 0 1 fs [] Hsrc)
    as (fs' & new & Hrun & Hnew & Hcat & Hcount & Hrest); [lia | lia |].
  exists fs', new. rewrite Hrun. simpl. rewrite drop_0 in Hcat.
  rewrite Nat.sub_0_r in Hcount. done.
Qed.

Lemma part_paths_NoDup (src : string) (n k : nat) :
  NoDup (part_path src <$> seq n k).
Proof.
  apply NoDup_fmap_2_strong; [|apply NoDup_seq].
  intros i j _ _. apply part_path_inj.
Qed.

(** C3.  A source of S bytes that is not itself one of its part files,
    split at a ceiling C > 0: [split_file] returns; the part paths are
    [src.part001], [src.part002], ... in that order; the parts read back
    in list order give the source bytes; there are ceil(S / C) of them
    when S > 0, and none for an empty source. *)
Theorem split_file_round_trip
    (fs : gmap string bytes) (src : string) (content : bytes) (chunk_size : Z) :
  fs !! src = Some content ->
  0 < chunk_size ->
  String.prefix ".part" (Path.suffix src) = false ->
  exists fs' part_paths,
    split_file fs src chunk_size = Ok (fs', part_paths)
    /\ part_paths = part_path src <$> seq 1 (length part_paths)
    /\ concat_parts fs' part_paths = content
    /\ (0 < Z.of_nat (length content) ->
        Z.of_nat (length part_paths)
        = ceil_div (Z.of_nat (length content)) chunk_size)
    /\ (content = [] -> part_paths = []).
Proof.
  intros Hsrc Hc Hs.
  destruct (split_file_spec fs src content chunk_size Hsrc Hc Hs)
    as (fs' & new & Hrun & Hnew & Hcat & Hcount & _).
  exists fs', new. repeat split; try done.
  intros ->. simpl in Hcount. rewrite ceil_div_0 in Hcount by done.
  destruct new; [done | simpl in Hcount; lia].
Qed.

Lemma split_file_round_trip_witness :
  exists fs' part_paths,
    split_file {[ "b.zip" := Sample.bs "abcdefg" ]} "b.zip" 3 = Ok (fs', part_paths)
    /\ part_paths = part_path "b.zip" <$> seq 1 (length part_paths)
    /\ concat_parts fs' part_paths = Sample.bs "abcdefg"
    /\ (0 < Z.of_nat (length (Sample.bs "abcdefg")) ->
        Z.of_nat (length part_paths)
        = ceil_div (Z.of_nat (length (Sample.bs "abcdefg"))) 3)
    /\ (Sample.bs "abcdefg" = [] -> part_paths = []).
Proof.
  apply (split_file_round_trip {[ "b.zip" := Sample.bs "abcdefg" ]} "b.zip"
           (Sample.bs "abcdefg") 3); [reflexivity | lia | reflexivity].
Defined.

Example split_file_seven_by_three :
  (fun r => match r with
            | Ok (fs, ps) => Some (ps, (fun p => string_of_list_byte (read_bytes fs p)) <$> ps)
            | Raise _ => None
            end)
    (split_file {[ "b.zip" := Sample.bs "abcdefg" ]} "b.zip" 3)
  = Some (["b.part001"; "b.part002"; "b.part003"], ["abc"; "def"; "g"]).
Proof. vm_compute. reflexivity. Qed.

(** ** The upload loop *)

Lemma lookup_unlink_all (fs : gmap string bytes) (ps : list string) (q : string) :
  foldl (fun m p => delete p m) fs ps !! q
  = if decide (q ∈ ps) then None else fs !! q.
Proof.
  revert fs. induction ps as [|p ps IH]; intros fs.
  - done.
  - cbn [foldl]. rewrite IH. destruct (decide (q ∈ ps)) as [Hin|Hin].
    + by rewrite decide_True by (by right).
    + destruct (decide (q = p)) as [->|Hne].
      * rewrite decide_True by left. apply lookup_delete_eq.
      * rewrite decide_False by (by intros [?|?]%elem_of_cons).
        by apply lookup_delete_ne.
Qed.

Section Loop.

Variables (chan : nat -> option Z) (loc : locals) (now : string).

Lemma cleanup_lookup (w : world) (q : string) :
  tmp (cleanup loc w) !! q
  = if decide (q ∈ l_zip_path loc :: l_parts loc) then None else tmp w !! q.
Proof.
  unfold cleanup. simpl. destruct (decide (q = l_zip_path loc)) as [->|Hne].
  - rewrite lookup_delete_eq. by rewrite decide_True by left.
  - rewrite lookup_delete_ne by done. rewrite lookup_unlink_all.
    destruct (decide (q ∈ l_parts loc)) as [Hin|Hin].
    + by rewrite decide_True by (by right).
    + by rewrite decide_False by (by intros [?|?]%elem_of_cons).
Qed.

(** What a run of the loop leaves, by the way it ends. *)
Lemma upload_loop_effect (remaining : list string) :
  forall (i : nat) (first : option Z) (w w' : world) (e : ending),
    upload_loop chan loc now i remaining first w = (w', e) ->
    recordings w' = recordings w
    /\ tasks w' = tasks w
    /\ (forall p c, tmp w' !! p = Some c -> tmp w !! p = Some c)
    /\ tmp w' !! l_zip_path loc = None
    /\ match e with
       | Committed =>
           scratch w' = ∅
           /\ batches w' = batches w ++ [batch_record loc now]
           /\ (forall p, p ∈ remaining -> tmp w' !! p = None)
       | Aborted k =>
           scratch w' = scratch w
           /\ batches w' = batches w
           /\ (forall p, p ∈ l_parts loc -> tmp w' !! p = None)
       end.
Proof.
  induction remaining as [|part rest IH]; intros i first w w' e H; simpl in H.
  - injection H as <- <-. simpl. repeat split; try done.
    + intros p c Hp. apply lookup_delete_Some in Hp. tauto.
    + apply lookup_delete_eq.
    + intros p Hp. by apply elem_of_nil in Hp.
  - unfold send_part in H. destruct (tmp w !! part) as [data|] eqn:Hpart.
    2:{ injection H as <- <-. repeat split; try done.
        - intros p c. rewrite cleanup_lookup. by case_decide.
        - rewrite cleanup_lookup. by rewrite decide_True by left.
        - intros p Hp. rewrite cleanup_lookup. by rewrite decide_True by (by right). }
    unfold sent_part in H. destruct (chan i) as [message_id|].
    2:{ injection H as <- <-. repeat split; try done.
        - intros p c. rewrite cleanup_lookup. by case_decide.
        - rewrite cleanup_lookup. by rewrite decide_True by left.
        - intros p Hp. rewrite cleanup_lookup. by rewrite decide_True by (by right). }
    simpl in H. rewrite Hpart in H.
    apply IH in H as (Hr & Ht & Hsub & Hzip & He). simpl in *.
    repeat split; try done.
    + intros p c Hp. apply Hsub in Hp. apply lookup_delete_Some in Hp. tauto.
    + destruct e as [|k]; [|done].
      destruct He as (Hs & Hb & Hgone). repeat split; try done.
      intros p [->|Hp]%elem_of_cons; [|by apply Hgone].
      destruct (tmp w' !! part) as [c|] eqn:E; [|done].
      apply Hsub in E. by rewrite lookup_delete_eq in E.
Qed.

(** With every part on disk, the channel alone decides the ending. *)
Lemma upload_loop_commits (remaining : list string) :
  forall (i : nat) (first : option Z) (w : world),
    NoDup remaining ->
    (forall p, p ∈ remaining -> is_Some (tmp w !! p)) ->
    (forall j, (i <= j < i + length remaining)%nat -> is_Some (chan j)) ->
    (upload_loop chan loc now i remaining first w).2 = Committed.
Proof.
  induction remaining as [|part rest IH]; intros i first w Hnd Hex Hch; [done|].
  apply NoDup_cons in Hnd as [Hfresh Hnd].
  destruct (Hex part) as [data Hpart]; [left|].
  destruct (Hch i) as [m Hm]; [simpl; lia|].
  simpl. unfold send_part, sent_part. rewrite Hpart, Hm. simpl. rewrite Hpart.
  apply IH; [done | |].
  - intros p Hp. simpl. rewrite lookup_delete_ne; [apply Hex; by right|].
    intros ->. done.
  - intros j Hj. apply Hch. simpl. lia.
Qed.



End Loop.

(** ** The archive *)

Lemma ends_with_dest (id : string) : Path.ends_with ".wav" (id +:+ ".wav") = true.
Proof.
  unfold Path.ends_with. rewrite string_app_length.
  change (String.length ".wav") with 4%nat.
  replace (String.length id + 4 - 4)%nat with (String.length id) by lia.
  rewrite substring_app_tail.
  apply andb_true_iff. split; [apply Nat.leb_le; lia | done].
Qed.

Lemma wav_not_manifest (name : string) :
  Path.ends_with ".wav" name = true -> name <> meta_name.
Proof. intros H ->. done. Qed.

(** ** The manifest *)

Lemma wav_files_spec (w : world) (name : string) :
  name ∈ wav_files w
  <-> is_Some (scratch w !! name) /\ Path.ends_with ".wav" name = true.
Proof.
  unfold wav_files, sorted. rewrite merge_sort_Permutation.
  rewrite list_elem_of_In, filter_In, <- list_elem_of_In.
  rewrite list_elem_of_fmap. split.
  - intros [[[n c] [-> Hin]] He]. apply elem_of_map_to_list in Hin.
    split; [by exists c | done].
  - intros [[c Hc] He]. split; [|done]. exists (name, c).
    split; [done | by apply elem_of_map_to_list].
Qed.

Lemma wav_files_NoDup (w : world) : NoDup (wav_files w).
Proof.
  unfold wav_files, sorted. rewrite merge_sort_Permutation.
  apply NoDup_ListNoDup, List.NoDup_filter, NoDup_ListNoDup, NoDup_fst_map_to_list.
Qed.

Lemma wav_files_sorted (w : world) : StronglySorted String.le (wav_files w).
Proof. apply StronglySorted_merge_sort; apply _. Qed.


(** *** The lookups *)

Lemma single_execute_none (rows : list recording_row) (id : string) :
  (forall r, r ∈ rows -> rec_task_id r <> id) ->
  single_execute rows id = Raise APIError.
Proof.
  intros H. unfold single_execute.
  replace (List.filter (fun r => String.eqb (rec_task_id r) id) rows) with (@nil recording_row);
    [done|].
  symmetry. induction rows as [|r rows IH]; [done|].
  simpl. destruct (String.eqb_spec (rec_task_id r) id) as [E|E].
  - exfalso. apply (H r); [left | done].
  - apply IH. intros r' Hr'. apply H. by right.
Qed.

Lemma single_execute_error (rows : list recording_row) (id : string) (e : error) :
  single_execute rows id = Raise e -> e = APIError.
Proof.
  unfold single_execute.
  destruct (List.filter _ rows) as [|r [|r' l]]; intros [=]; done.
Qed.

Lemma filter_single_find {A} (f : A -> bool) (l : list A) (x : A) :
  List.filter f l = [x] -> List.find f l = Some x.
Proof.
  induction l as [|a l IH]; [done|]. simpl.
  destruct (f a); [|done]. by intros [= -> _].
Qed.

Lemma single_execute_select (rows : list recording_row) (id : string)
    (r : recording_row) :
  single_execute rows id = Ok r ->
  select_transcript rows id = Some (rec_transcript r).
Proof.
  unfold single_execute, select_transcript.
  destruct (List.filter _ rows) as [|r0 [|r' l]] eqn:Hf; intros [=]; subst r0.
  by rewrite (filter_single_find _ _ _ Hf).
Qed.

Lemma lookup_rows_raises (rows : list recording_row) (wavs : list string)
    (wav : string) :
  wav ∈ wavs ->
  single_execute rows (Path.stem wav) = Raise APIError ->
  lookup_rows rows wavs = Raise APIError.
Proof.
  intros Hin Hraise. induction wavs as [|x rest IH]; [by apply elem_of_nil in Hin|].
  simpl. destruct (single_execute rows (Path.stem x)) as [r|e1] eqn:Hr; simpl.
  - apply elem_of_cons in Hin as [->|Hin]; [congruence|].
    by rewrite (IH Hin).
  - f_equal. by apply single_execute_error in Hr.
Qed.

(** Where every lookup returns, the rows are the ones [manifest_rows]
    gives. *)
Lemma fetch_rows_agree (w : world) (rows : list (string * string)) :
  fetch_rows w = Ok rows -> rows = manifest_rows w.
Proof.
  unfold fetch_rows, manifest_rows. revert rows.
  induction (wav_files w) as [|wav rest IH]; intros rows H; simpl in H.
  - by injection H as <-.
  - destruct (single_execute (recordings w) (Path.stem wav)) as [r|e1] eqn:Hr;
      simpl in H; [|done].
    destruct (lookup_rows (recordings w) rest) as [l|e2]; simpl in H; [|done].
    injection H as <-. rewrite fmap_cons, <- (IH l eq_refl). unfold manifest_row.
    by rewrite (single_execute_select _ _ _ Hr).
Qed.

Section Batch.

Variable cfg : settings.
Variable zip_stored : list (string * bytes) -> bytes.


(** What [archive] returns is what [split_file] returns on the archive
    just written. *)
Lemma archive_inv (timestamp : string) (w w1 : world) (loc : locals) :
  archive cfg zip_stored timestamp w = Ok (w1, loc) ->
  exists fs' part_paths,
    split_file (tmp (pack zip_stored timestamp w)) (zip_name timestamp)
      (CHUNK_SIZE_BYTES cfg) = Ok (fs', part_paths)
    /\ w1 = set_tmp fs' (pack zip_stored timestamp w)
    /\ l_zip_path loc = zip_name timestamp
    /\ l_rows loc = manifest_rows w
    /\ l_parts loc = part_paths
    /\ l_total_parts loc = length part_paths.
Proof.
  unfold archive. intros H.
  destruct (split_file _ _ _) as [[fs' part_paths]|err] eqn:Hsplit; [|done].
  simpl in H. injection H as <- <-. by exists fs', part_paths.
Qed.

Lemma packed_zip (timestamp : string) (w : world) :
  tmp (pack zip_stored timestamp w) !! zip_name timestamp
  = Some (archive_bytes zip_stored w).
Proof. unfold pack, write_zip, archive_bytes. simpl. apply lookup_insert_eq. Qed.

Hypothesis chunk_pos : 0 < CHUNK_SIZE_BYTES cfg.

(** [archive] returns: the parts are on disk, distinct, none is the
    archive, and nothing else in [/tmp] has changed. *)
Lemma archive_spec (timestamp : string) (w : world) :
  exists w1 loc,
    archive cfg zip_stored timestamp w = Ok (w1, loc)
    /\ scratch w1 = <[meta_name := manifest (manifest_rows w)]> (scratch w)
    /\ recordings w1 = recordings w /\ tasks w1 = tasks w
    /\ batches w1 = batches w /\ sent w1 = sent w
    /\ l_parts loc = part_path (zip_name timestamp) <$> seq 1 (length (l_parts loc))
    /\ Z.of_nat (length (l_parts loc)) = part_count cfg zip_stored w
    /\ concat_parts (tmp w1) (l_parts loc) = archive_bytes zip_stored w
    /\ NoDup (l_parts loc)
    /\ (forall p, p ∈ l_parts loc -> is_Some (tmp w1 !! p))
    /\ (forall p, p ∉ zip_name timestamp :: l_parts loc -> tmp w1 !! p = tmp w !! p).
Proof.
  destruct (split_file_spec (tmp (pack zip_stored timestamp w)) (zip_name timestamp)
              (archive_bytes zip_stored w) (CHUNK_SIZE_BYTES cfg))
    as (fs' & part_paths & Hsplit & Hnames & Hcat & Hcount & Hzip & Hframe & Hex).
  { apply packed_zip. }
  { done. }
  { by rewrite zip_name_suffix. }
  eexists _, _. unfold archive. rewrite Hsplit. simpl.
  split; [done|]. simpl. split_and!; try done.
  - rewrite Hnames. apply part_paths_NoDup.
  - intros p Hp. apply not_elem_of_cons in Hp as [Hne Hp].
    rewrite Hframe by done. unfold pack, write_zip. simpl.
    by rewrite lookup_insert_ne.
Qed.

(** *** The pending byte total *)

Lemma get_batch_size_insert (w : world) (name : string) (content : bytes) :
  get_batch_size (set_scratch (<[name := content]> (scratch w)) w)
  = Z.of_nat (length content)
    + get_batch_size (set_scratch (delete name (scratch w)) w).
Proof.
  unfold get_batch_size. simpl.
  rewrite <- (insert_delete_eq (scratch w)).
  rewrite map_fold_insert_L; [done | | apply lookup_delete_eq].
  intros. lia.
Qed.

Lemma manifest_size (rows : list (string * string)) :
  (3 <= length (manifest rows))%nat.
Proof.
  unfold manifest, Csv.render. rewrite length_app. simpl. lia.
Qed.

(** C10.  When [upload_batch] has returned from its [except] branch,
    [metadata.csv] is in the scratch directory with the manifest just
    written, and [get_batch_size] counts its bytes on top of those of
    the other files. *)
Theorem manifest_left_after_abort
    (chan : nat -> option Z) (timestamp now : string) (w w' : world) (k : nat) :
  upload_batch cfg zip_stored chan timestamp now w = Ok (w', Aborted k) ->
  scratch w' !! meta_name = Some (manifest (manifest_rows w))
  /\ (forall name, name <> meta_name -> scratch w' !! name = scratch w !! name)
  /\ get_batch_size w'
     = Z.of_nat (length (manifest (manifest_rows w)))
       + get_batch_size (set_scratch (delete meta_name (scratch w)) w)
  /\ 0 < Z.of_nat (length (manifest (manifest_rows w))).
Proof.
  unfold upload_batch. intros H.
  destruct (archive cfg zip_stored timestamp w) as [[w1 loc]|err] eqn:Harch; [|done].
  simpl in H. injection H as H.
  apply archive_inv in Harch as (fs' & pp & _ & -> & _).
  apply upload_loop_effect in H as (_ & _ & _ & _ & Hs & _ & _).
  simpl in Hs.
  split_and!.
  - rewrite Hs. apply lookup_insert_eq.
  - intros name Hne. rewrite Hs. by apply lookup_insert_ne.
  - rewrite <- get_batch_size_insert. unfold get_batch_size. by rewrite Hs.
  - pose proof (manifest_size (manifest_rows w)). lia.
Qed.




(** C5, as the code has it.  A [*.wav] file of the scratch directory
    for whose task id (the file's stem) [recordings] has no row: the
    lookup for it raises, so the lookups of [upload_batch] end with
    that error whatever else the directory holds and whatever the
    channel would answer, and the task that runs [upload_batch] ends
    with it, the world left as it was: no manifest with an empty
    transcript is written, nothing is archived or sent.  The
    [if resp.data else ""] of line 281 is never reached for a missing
    row. *)
Theorem missing_transcript_ends_promotion
    (chan : nat -> option Z) (timestamp now : string) (w : world) (wav : string) :
  is_Some (scratch w !! wav) ->
  Path.ends_with ".wav" wav = true ->
  (forall r, r ∈ recordings w -> rec_task_id r <> Path.stem wav) ->
  single_execute (recordings w) (Path.stem wav) = Raise APIError
  /\ fetch_rows w = Raise APIError
  /\ upload_batch_with_lookups cfg zip_stored chan timestamp now w = Raise APIError
  /\ upload_batch_start_with_lookups cfg zip_stored timestamp now w
     = (w, Crashed APIError).
Proof.
  intros Hfile Hwav Hnone.
  pose proof (single_execute_none _ _ Hnone) as Hraise.
  assert (Hfetch : fetch_rows w = Raise APIError).
  { unfold fetch_rows. apply (lookup_rows_raises _ _ wav); [|done].
    by apply wav_files_spec. }
  split_and!; [done | done | |].
  - unfold upload_batch_with_lookups. by rewrite Hfetch.
  - unfold upload_batch_start_with_lookups. by rewrite Hfetch.
Qed.



End Batch.

(** ** The event loop *)

Section Loop_events.

Variable cfg : settings.
Variable zip_stored : list (string * bytes) -> bytes.

Lemma in_flight_app (ts : list task_state) :
  length (List.filter in_flight (ts ++ [Fresh]))
  = S (length (List.filter in_flight ts)).
Proof. rewrite List.filter_app, length_app. simpl. lia. Qed.

(** An accepted request, with the lock free: the gate asks nothing but
    the byte total. *)
Lemma submit_accepted (content_type id transcript : string) (audio : bytes)
    (now : string) (s : system) :
  existsb (String.eqb content_type) ALLOWED = true ->
  upload_lock s = false ->
  let w := record_submission id transcript audio now (sys_world s) in
  submit cfg content_type id transcript audio now s
  = Some ({| sys_world := w; upload_lock := false;
             promotions :=
               if BATCH_SIZE_BYTES cfg <=? get_batch_size w
               then promotions s ++ [Fresh] else promotions s |},
          Accepted id (get_batch_size w)).
Proof.
  intros Hct Hlock w. unfold submit. rewrite Hct. simpl. fold w.
  destruct (BATCH_SIZE_BYTES cfg <=? get_batch_size w) eqn:Hsize.
  - unfold gated_section. simpl. rewrite Hlock. simpl. fold w.
    rewrite Hsize. done.
  - unfold set_world. by rewrite Hlock.
Qed.

(** C2, on the code.  A request that leaves the scratch directory at
    or over the threshold creates an [upload_batch] task, also while a
    promotion is in flight: the lock is free again as soon as the task
    is created, and the second check reads the same directory as the
    first. *)
Theorem submit_starts_another_promotion
    (content_type id transcript : string) (audio : bytes) (now : string)
    (s : system) :
  existsb (String.eqb content_type) ALLOWED = true ->
  upload_lock s = false ->
  (1 <= promotions_in_flight s)%nat ->
  BATCH_SIZE_BYTES cfg
    <= get_batch_size (record_submission id transcript audio now (sys_world s)) ->
  exists s' batch_bytes,
    submit cfg content_type id transcript audio now s
    = Some (s', Accepted id batch_bytes)
    /\ promotions s' = promotions s ++ [Fresh]
    /\ promotions_in_flight s' = S (promotions_in_flight s)
    /\ (2 <= promotions_in_flight s')%nat.
Proof.
  intros Hct Hlock Hflight Hsize.
  rewrite (submit_accepted _ _ _ _ _ _ Hct Hlock).
  apply Z.leb_le in Hsize. rewrite Hsize.
  eexists _, _. split; [done|]. unfold promotions_in_flight in *. simpl.
  rewrite in_flight_app. split_and!; [done | done | lia].
Qed.

(** Between two steps the lock is free. *)
Lemma step_lock_free (s s' : system) (e : event) :
  step cfg zip_stored s e = Some s' -> upload_lock s = false -> upload_lock s' = false.
Proof.
  intros H Hlock. destruct e as [ct id tr audio now|j ts now|j answer now]; simpl in H.
  - destruct (existsb (String.eqb ct) ALLOWED) eqn:Hct.
    + rewrite (submit_accepted _ _ _ _ _ _ Hct Hlock) in H. by injection H as <-.
    + unfold submit in H. rewrite Hct in H. simpl in H. by injection H as <-.
  - destruct (promotions s !! j) as [[| | |]|]; try done.
    destruct (upload_batch_start _ _ _ _ _) as [w t]. by injection H as <-.
  - destruct (promotions s !! j) as [[| | |]|]; try done.
    destruct (upload_batch_resume _ _ _ _) as [w t]. by injection H as <-.
Qed.

Lemma run_lock_free (events : list event) :
  forall s s', run cfg zip_stored s events = Some s' ->
               upload_lock s = false -> upload_lock s' = false.
Proof.
  induction events as [|e events IH]; intros s s' H Hlock; simpl in H.
  - by injection H as <-.
  - destruct (step cfg zip_stored s e) as [s1|] eqn:Hstep; [|done]. simpl in H.
    eapply IH; [exact H|]. by eapply step_lock_free.
Qed.









(** The task run alone ends as [upload_batch] does. *)
Lemma drive_upload_loop (chan : nat -> option Z) (loc : locals) (now : string)
    (remaining : list string) :
  forall (i : nat) (first : option Z) (w : world),
    let '(w1, t) := next_part loc now i remaining first w in
    drive chan now (length remaining) t w1
    = (let '(w', e) := upload_loop chan loc now i remaining first w in
       (w', Finished e)).
Proof.
  induction remaining as [|part rest IH]; intros i first w; [done|].
  simpl. destruct (send_part loc i part first w) as [w1|]; [|done].
  simpl. unfold upload_batch_resume. simpl.
  destruct (sent_part i part first (chan i) w1) as [[w2 first']|].
  - specialize (IH (S i) first' w2).
    destruct (next_part loc now (S i) rest first' w2) as [w3 t]. exact IH.
  - by destruct rest.
Qed.

End Loop_events.

(** ** Worked instances *)



Lemma missing_transcript_ends_promotion_witness :
  (forall r, r ∈ recordings Sample.dir -> rec_task_id r <> Path.stem "b.wav")
  /\ upload_batch_with_lookups Sample.small Sample.container Sample.always
       "T" "t9" Sample.dir = Raise APIError
  /\ upload_batch_start_with_lookups Sample.small Sample.container
       "T" "t9" Sample.dir = (Sample.dir, Crashed APIError).
Proof.
  assert (Hnone : forall r, r ∈ recordings Sample.dir
                            -> rec_task_id r <> Path.stem "b.wav").
  { intros r Hr. apply list_elem_of_singleton in Hr. subst r. vm_compute. discriminate. }
  split; [exact Hnone|].
  destruct (missing_transcript_ends_promotion Sample.small Sample.container
              Sample.always "T" "t9" Sample.dir "b.wav")
    as (_ & _ & Hrun & Htask).
  - vm_compute. eexists. reflexivity.
  - vm_compute. reflexivity.
  - exact Hnone.
  - split; [exact Hrun | exact Htask].
Defined.



Lemma manifest_left_after_abort_witness :
  let w' := Sample.left_by
              (upload_batch Sample.small Sample.container (Sample.fails_at 2)
                 "T" "t9" Sample.dir) in
  get_batch_size Sample.dir = 6
  /\ scratch w' !! meta_name = Some (manifest (manifest_rows Sample.dir))
  /\ get_batch_size w' = Z.of_nat (length (manifest (manifest_rows Sample.dir))) + 6.
Proof.
  intros w'.
  destruct (manifest_left_after_abort Sample.small Sample.container
              (Sample.fails_at 2) "T" "t9" Sample.dir w' 2)
    as (Hmeta & _ & Hsize & _).
  - vm_compute. reflexivity.
  - split; [vm_compute; reflexivity|]. split; [exact Hmeta|].
    rewrite Hsize. vm_compute. reflexivity.
Defined.

Lemma submit_starts_another_promotion_witness :
  let s := Sample.reached
             (run Sample.small Sample.container (boot Sample.dir)
                [Sample.request_d; Sample.start_0]) in
  promotions_in_flight s = 1%nat
  /\ exists s' batch_bytes,
       submit Sample.small "audio/wav" "e" "ha" (Sample.bs "E") "t3" s
       = Some (s', Accepted "e" batch_bytes)
       /\ promotions_in_flight s' = 2%nat.
Proof.
  intros s.
  assert (Hone : promotions_in_flight s = 1%nat) by (vm_compute; reflexivity).
  split; [exact Hone|].
  destruct (submit_starts_another_promotion Sample.small
              "audio/wav" "e" "ha" (Sample.bs "E") "t3" s)
    as (s' & size & Hsub & _ & Hflight & _).
  - vm_compute. reflexivity.
  - vm_compute. reflexivity.
  - rewrite Hone. apply le_n.
  - vm_compute. discriminate.
  - exists s', size. split; [exact Hsub|]. rewrite Hflight, Hone. reflexivity.
Defined.

(** The run behind it: a request crosses the threshold and its
    promotion starts and waits for the channel; the next request finds
    the directory still over the threshold and starts a second one. *)
Example two_promotions_in_flight :
  (fun s => (promotions_in_flight s, length (promotions s), upload_lock s))
    <$> run Sample.small Sample.container (boot Sample.dir)
          [Sample.request_d; Sample.start_0; Sample.request_e]
  = Some (2%nat, 2%nat, false).
Proof. vm_compute. reflexivity. Qed.



(** * Further properties *)

(** ** The chunker, continued *)

Lemma part_sizes_0 (c : nat) : (0 < c)%nat -> part_sizes c 0 = [].
Proof.
  intros Hc. unfold part_sizes.
  rewrite Nat.Div0.div_0_l, Nat.Div0.mod_0_l. done.
Qed.

Lemma part_sizes_step (c r : nat) :
  (0 < c)%nat -> (0 < r)%nat ->
  part_sizes c r = Nat.min c r :: part_sizes c (r - Nat.min c r).
Proof.
  intros Hc Hr. unfold part_sizes.
  destruct (Nat.min_spec c r) as [[Hlt ->]|[Hle ->]].
  - assert (Hdiv : (r / c = S ((r - c) / c))%nat).
    { replace r with ((r - c) + 1 * c)%nat at 1 by lia.
      rewrite Nat.div_add by lia. lia. }
    assert (Hmod : (r mod c = (r - c) mod c)%nat).
    { replace r with ((r - c) + 1 * c)%nat at 1 by lia.
      apply Nat.Div0.mod_add. }
    rewrite Hdiv, Hmod. done.
  - rewrite Nat.sub_diag, Nat.Div0.div_0_l, Nat.Div0.mod_0_l.
    destruct (decide (r = c)) as [->|Hne].
    + rewrite Nat.div_same, Nat.Div0.mod_same by lia. done.
    + rewrite Nat.div_small, Nat.mod_small by lia.
      destruct (Nat.eqb_spec r 0); [lia | done].
Qed.

Section Split_sizes.

Variables (src : string) (chunk_size : Z) (content : bytes).
Hypothesis chunk_pos : 0 < chunk_size.
Hypothesis src_not_part : String.prefix ".part" (Path.suffix src) = false.

Lemma split_loop_sizes (fuel : nat) :
  forall (pos part_no : nat) (fs : gmap string bytes) (acc : list string),
    fs !! src = Some content ->
    (pos <= length content)%nat ->
    (length content - pos < fuel)%nat ->
    exists fs' new,
      split_loop fuel src chunk_size pos part_no fs acc = Ok (fs', acc ++ new)
      /\ new = part_path src <$> seq part_no (length new)
      /\ (forall p, p ∉ new -> fs' !! p = fs !! p)
      /\ (fun p => length (read_bytes fs' p)) <$> new
         = part_sizes (Z.to_nat chunk_size) (length content - pos).
Proof.
  induction fuel as [|fuel IH]; intros pos part_no fs acc Hsrc Hpos Hfuel; [lia|].
  simpl. rewrite (f_read_src src chunk_size content chunk_pos _ _ Hsrc).
  destruct (take (Z.to_nat chunk_size) (drop pos content)) as [|b data] eqn:Hdata.
  - assert (Hlen : length content = pos).
    { apply (f_equal length) in Hdata. rewrite length_take, length_drop in Hdata.
      simpl in Hdata. lia. }
    exists fs, []. rewrite app_nil_r. split_and!; [done | done | done |].
    rewrite Hlen, Nat.sub_diag, part_sizes_0 by lia. done.
  - set (d := b :: data) in *.
    assert (Hd : length d = Nat.min (Z.to_nat chunk_size) (length content - pos)).
    { rewrite <- Hdata, length_take, length_drop. done. }
    assert (Hd1 : (1 <= length d)%nat) by (simpl; lia).
    set (p1 := part_path src part_no).
    assert (Hp1 : p1 <> src) by (by apply part_path_ne_src).
    destruct (IH (pos + length d)%nat (S part_no) (<[p1 := d]> fs) (acc ++ [p1]))
      as (fs' & new & Hrun & Hnew & Hframe & Hsizes).
    { by rewrite lookup_insert_ne. }
    { lia. }
    { lia. }
    assert (Hp1new : p1 ∉ new).
    { rewrite Hnew. apply part_path_not_later. lia. }
    assert (Hfs1 : fs' !! p1 = Some d).
    { rewrite Hframe by done. apply lookup_insert_eq. }
    exists fs', (p1 :: new). rewrite Hrun. split_and!.
    + by rewrite <- app_assoc.
    + rewrite length_cons. cbn [seq]. rewrite fmap_cons. unfold p1. f_equal. exact Hnew.
    + intros p Hp. apply not_elem_of_cons in Hp as [Hne Hp].
      rewrite Hframe by done. by rewrite lookup_insert_ne.
    + rewrite fmap_cons, Hsizes. unfold read_bytes at 1. rewrite Hfs1.
      change (length (default [] (Some d))) with (length d).
      rewrite (part_sizes_step _ (length content - pos)) by lia.
      rewrite <- Hd. f_equal. f_equal. lia.
Qed.

End Split_sizes.

(** The sizes of the parts [split_file] writes. *)
Lemma split_file_sizes
    (fs : gmap string bytes) (src : string) (content : bytes) (chunk_size : Z) :
  fs !! src = Some content ->
  0 < chunk_size ->
  String.prefix ".part" (Path.suffix src) = false ->
  exists fs' part_paths,
    split_file fs src chunk_size = Ok (fs', part_paths)
    /\ (fun p => length (read_bytes fs' p)) <$> part_paths
       = part_sizes (Z.to_nat chunk_size) (length content)
    /\ Forall (fun p => 0 < Z.of_nat (length (read_bytes fs' p)) <= chunk_size)
         part_paths.
Proof.
  intros Hsrc Hc Hs. unfold split_file. rewrite Hsrc.
  destruct (split_loop_sizes src chunk_size content Hc Hs
              (S (length content)) 0 1 fs [] Hsrc)
    as (fs1 & new & Hrun1 & _ & _ & Hsizes); [lia | lia |].
  exists fs1, new. rewrite Hrun1. simpl.
  rewrite Nat.sub_0_r in Hsizes. split_and!; [done | exact Hsizes |].
  apply Forall_forall. intros p Hp.
  assert (Hin : length (read_bytes fs1 p)
                ∈ part_sizes (Z.to_nat chunk_size) (length content)).
  { rewrite <- Hsizes. by apply (list_elem_of_fmap_2 (fun p => length (read_bytes fs1 p))). }
  unfold part_sizes in Hin. apply elem_of_app in Hin as [Hin|Hin].
  - apply elem_of_replicate in Hin as [-> _]. lia.
  - destruct (Nat.eqb_spec (length content `mod` Z.to_nat chunk_size) 0) as [E|E];
      [by apply elem_of_nil in Hin|].
    apply list_elem_of_singleton in Hin. rewrite Hin.
    pose proof (Nat.mod_upper_bound (length content) (Z.to_nat chunk_size)). lia.
Qed.

(** X1.  A source that is none of its parts, cut at a ceiling C > 0:
    the parts hold C bytes each, but for the last, which holds the rest
    when the size is no multiple of C; no part is empty and none is over
    the ceiling. *)
Theorem split_file_part_sizes
    (fs : gmap string bytes) (src : string) (content : bytes) (chunk_size : Z) :
  fs !! src = Some content ->
  0 < chunk_size ->
  String.prefix ".part" (Path.suffix src) = false ->
  exists fs' part_paths,
    split_file fs src chunk_size = Ok (fs', part_paths)
    /\ (fun p => length (read_bytes fs' p)) <$> part_paths
       = part_sizes (Z.to_nat chunk_size) (length content)
    /\ Forall (fun p => 0 < Z.of_nat (length (read_bytes fs' p)) <= chunk_size)
         part_paths.
Proof. apply split_file_sizes. Qed.

(** X2.  [split_file] on such a source writes the part files and
    nothing else: the source keeps its bytes and every path that is not
    a part path of the source holds what it held. *)
Theorem split_file_writes_only_parts
    (fs : gmap string bytes) (src : string) (content : bytes) (chunk_size : Z) :
  fs !! src = Some content ->
  0 < chunk_size ->
  String.prefix ".part" (Path.suffix src) = false ->
  exists fs' part_paths,
    split_file fs src chunk_size = Ok (fs', part_paths)
    /\ fs' !! src = Some content
    /\ (forall p, (forall n, p <> part_path src n) -> fs' !! p = fs !! p)
    /\ (forall p, p ∈ part_paths -> is_Some (fs' !! p)).
Proof.
  intros Hsrc Hc Hs.
  destruct (split_file_spec fs src content chunk_size Hsrc Hc Hs)
    as (fs' & pp & Hrun & Hnames & _ & _ & Hkeep & Hframe & Hex).
  exists fs', pp. split_and!; try done.
  intros p Hp. apply Hframe. rewrite Hnames.
  intros [n [-> _]]%list_elem_of_fmap. by apply (Hp n).
Qed.

(** X3.  A ceiling of zero: the first read returns nothing, so
    [split_file] returns no part and writes nothing, whatever the source
    holds. *)
Theorem split_file_zero_ceiling
    (fs : gmap string bytes) (src : string) (content : bytes) :
  fs !! src = Some content ->
  split_file fs src 0 = Ok (fs, []).
Proof.
  intros Hsrc. unfold split_file. rewrite Hsrc.
  cbn [split_loop]. unfold f_read. rewrite Hsrc. done.
Qed.

(** X4.  A ceiling of [-1]: [f.read(-1)] returns the whole file at
    once, so a source that is not empty (and is not named like one of
    its own parts) gives one part, [src.part001], holding all of it. *)
Theorem split_file_negative_ceiling
    (fs : gmap string bytes) (src : string) (content : bytes) :
  fs !! src = Some content ->
  content <> [] ->
  String.prefix ".part" (Path.suffix src) = false ->
  split_file fs src (-1)
  = Ok (<[part_path src 1 := content]> fs, [part_path src 1]).
Proof.
  intros Hsrc Hne Hnp. unfold split_file. rewrite Hsrc.
  assert (Hsrc' : <[part_path src 1 := content]> fs !! src = Some content).
  { rewrite lookup_insert_ne; [done|]. by apply part_path_ne_src. }
  assert (Hread : f_read fs src 0 (-1) = content).
  { unfold f_read. by rewrite Hsrc. }
  assert (Hread' : f_read (<[part_path src 1 := content]> fs) src
                     (0 + length content) (-1) = []).
  { unfold f_read. rewrite Hsrc'. simpl. by rewrite drop_all. }
  destruct content as [|b rest]; [done|].
  cbn [length split_loop]. rewrite Hread. rewrite Hread'. done.
Qed.

(** X5.  The parts of the archive of a batch: part [n] is
    [batch_<timestamp>.part<n>], [n] in decimal padded with zeros to
    three digits (more digits from 1000 on); two part numbers never give
    the same path, and no part path is the archive's. *)
Theorem part_paths_named_and_distinct (timestamp : string) (n m : nat) :
  part_path (zip_name timestamp) n = "batch_" +:+ timestamp +:+ ".part" +:+ fmt_03d n
  /\ (part_path (zip_name timestamp) n = part_path (zip_name timestamp) m -> n = m)
  /\ part_path (zip_name timestamp) n <> zip_name timestamp.
Proof.
  split_and!.
  - unfold part_path. rewrite with_suffix_split, zip_name_suffix.
    unfold zip_name, part_suffix.
    change (String.length ".zip") with 4%nat.
    assert (E : "batch_" +:+ timestamp +:+ ".zip" = ("batch_" +:+ timestamp) +:+ ".zip").
    { by rewrite !string_app_cons, string_app_nil_l. }
    rewrite E, string_app_length.
    change (String.length ".zip") with 4%nat.
    replace (String.length ("batch_" +:+ timestamp) + 4 - 4)%nat
      with (String.length ("batch_" +:+ timestamp)) by lia.
    rewrite substring_app_head.
    by rewrite !string_app_cons, !string_app_nil_l.
  - apply part_path_inj.
  - apply part_path_ne_src. by rewrite zip_name_suffix.
Qed.

(** ** The calls of a run that commits *)

Section Calls.

Variables (chan : nat -> option Z) (loc : locals) (now : string).

(** The log of a run of the loop in which every transfer goes through:
    one call per part, in order, built from the part's bytes. *)
Lemma upload_loop_log (remaining : list string) :
  forall (i : nat) (first fid : option Z) (w : world),
    NoDup remaining ->
    (forall p, p ∈ remaining -> is_Some (tmp w !! p)) ->
    (forall j, (i <= j < i + length remaining)%nat -> is_Some (chan j)) ->
    (1 <= i)%nat ->
    (i = 1%nat -> fid = chan 1%nat) ->
    ((2 <= i)%nat -> fid = first) ->
    sent (upload_loop chan loc now i remaining first w).1
    = sent w ++ imap (fun k p => call_for loc fid (i + k) p (read_bytes (tmp w) p))
                remaining.
Proof.
  induction remaining as [|part rest IH];
    intros i first fid w Hnd Hex Hch Hi H1 H2.
  - simpl. by rewrite app_nil_r.
  - apply NoDup_cons in Hnd as [Hfresh Hnd].
    destruct (Hex part) as [data Hpart]; [left|].
    destruct (Hch i) as [m Hm]; [simpl; lia|].
    cbn [upload_loop]. unfold send_part, sent_part. rewrite Hpart, Hm.
    cbn [tmp log_call]. rewrite Hpart.
    rewrite (IH (S i) _ fid); [| done | | | lia | lia |].
    + cbn [sent set_tmp log_call tmp]. rewrite <- app_assoc. f_equal.
      cbn [imap app]. f_equal.
      * unfold call_for, read_bytes. rewrite Hpart, Nat.add_0_r. simpl.
        f_equal. destruct (Nat.ltb_spec 1 i); [by rewrite H2 | done].
      * apply imap_ext. intros k p Hp. simpl.
        rewrite Nat.add_succ_r. f_equal. unfold read_bytes.
        rewrite lookup_delete_ne; [done|]. intros ->.
        apply Hfresh. by eapply list_elem_of_lookup_2.
    + intros p Hp. cbn [tmp set_tmp log_call].
      rewrite lookup_delete_ne; [apply Hex; by right|]. by intros ->.
    + intros j Hj. apply Hch. simpl. lia.
    + intros _. destruct (Nat.eqb_spec i 1) as [->|Hne].
      * rewrite H1 by done. done.
      * rewrite H2 by lia. done.
Qed.

End Calls.

Section Committed.

Variable cfg : settings.
Variable zip_stored : list (string * bytes) -> bytes.
Hypothesis chunk_pos : 0 < CHUNK_SIZE_BYTES cfg.

(** A run in which every transfer goes through, in full. *)
Lemma committed_run (chan : nat -> option Z) (timestamp now : string) (w : world) :
  (forall j, 1 <= Z.of_nat j <= part_count cfg zip_stored w -> is_Some (chan j)) ->
  exists w1 loc w',
    archive cfg zip_stored timestamp w = Ok (w1, loc)
    /\ upload_batch cfg zip_stored chan timestamp now w = Ok (w', Committed)
    /\ sent w'
       = sent w ++ imap (fun k p => call_for loc (chan 1%nat) (S k) p
                                    (read_bytes (tmp w1) p)) (l_parts loc)
    /\ scratch w' = ∅
    /\ batches w' = batches w ++ [batch_record loc now]
    /\ recordings w' = recordings w.
Proof.
  intros Hchan.
  destruct (archive_spec cfg zip_stored chunk_pos timestamp w)
    as (w1 & loc & Harch & _ & Hrec & _ & Hbat & Hsent & _ & Hcount & _ & Hnd & Hex & _).
  exists w1, loc. unfold upload_batch. rewrite Harch. simpl.
  destruct (upload_loop chan loc now 1 (l_parts loc) None w1) as [w' e] eqn:Hloop.
  assert (Hrange : forall j, (1 <= j < 1 + length (l_parts loc))%nat -> is_Some (chan j)).
  { intros j Hj. apply Hchan. lia. }
  assert (He : e = Committed).
  { change e with (w', e).2. rewrite <- Hloop. by apply upload_loop_commits. }
  subst e. exists w'. split; [done|]. split; [done|].
  pose proof (upload_loop_log chan loc now (l_parts loc) 1 None (chan 1%nat) w1
                Hnd Hex Hrange) as Hlog.
  rewrite Hloop in Hlog. simpl in Hlog. rewrite Hsent in Hlog.
  apply upload_loop_effect in Hloop as (Hr & _ & _ & _ & Hs & Hb & _).
  split_and!.
  - apply Hlog; [lia | done | lia].
  - done.
  - congruence.
  - congruence.
Qed.

Lemma archive_locals (timestamp : string) (w w1 : world) (loc : locals) :
  archive cfg zip_stored timestamp w = Ok (w1, loc) ->
  l_timestamp loc = timestamp
  /\ l_zip_size loc = length (archive_bytes zip_stored w)
  /\ l_rows loc = manifest_rows w
  /\ l_total_parts loc = length (l_parts loc).
Proof.
  unfold archive. intros H.
  destruct (split_file _ _ _) as [[fs' part_paths]|err] eqn:Hsplit; [|done].
  simpl in H. injection H as <- <-.
  cbn [l_timestamp l_zip_size l_rows l_total_parts l_parts].
  split_and!; try done.
  unfold read_bytes, archive_bytes. simpl. by rewrite lookup_insert_eq.
Qed.




End Committed.

(** ** What is archived *)

Lemma iterdir_sorted_spec (w : world) (name : string) :
  name ∈ iterdir_sorted w <-> is_Some (scratch w !! name).
Proof.
  unfold iterdir_sorted, sorted. rewrite merge_sort_Permutation.
  rewrite list_elem_of_fmap. split.
  - intros [[n c] [-> Hin]]. apply elem_of_map_to_list in Hin. by exists c.
  - intros [c Hc]. exists (name, c). split; [done | by apply elem_of_map_to_list].
Qed.

Lemma zip_entries_names (w : world) : (zip_entries w).*1 = iterdir_sorted w.
Proof.
  unfold zip_entries. rewrite <- list_fmap_compose.
  induction (iterdir_sorted w) as [|x l IH]; [done|].
  rewrite fmap_cons. by rewrite IH.
Qed.

Lemma zip_entries_scratch (w w' : world) :
  scratch w = scratch w' -> zip_entries w = zip_entries w'.
Proof. unfold zip_entries, iterdir_sorted. by intros ->. Qed.

(** X8.  The entries written to the archive: the manifest just written
    and every other file of the scratch directory, [*.wav] or not, each
    under its name with its bytes, once, names in ascending order.  A
    [metadata.csv] left by an earlier attempt is not archived: the new
    one has taken its place. *)
Theorem archive_holds_directory_and_manifest (w : world) :
  StronglySorted String.le (zip_entries (write_manifest w)).*1
  /\ NoDup (zip_entries (write_manifest w)).*1
  /\ forall name content,
       (name, content) ∈ zip_entries (write_manifest w)
       <-> (name = meta_name /\ content = manifest (manifest_rows w))
           \/ (name <> meta_name /\ scratch w !! name = Some content).
Proof.
  rewrite zip_entries_names. split_and!.
  - apply StronglySorted_merge_sort; apply _.
  - unfold iterdir_sorted, sorted. rewrite merge_sort_Permutation.
    apply NoDup_fst_map_to_list.
  - intros name content. unfold zip_entries. rewrite list_elem_of_fmap.
    assert (Hlook : forall n,
              scratch (write_manifest w) !! n
              = if decide (meta_name = n) then Some (manifest (manifest_rows w))
                else scratch w !! n).
    { intros n. unfold write_manifest. simpl. apply lookup_insert. }
    split.
    + intros [item [[= -> ->] Hin]]. apply iterdir_sorted_spec in Hin as [c Hc].
      change (<[meta_name:=manifest (manifest_rows w)]> (scratch w))
        with (scratch (write_manifest w)).
      unfold read_bytes. rewrite Hc. simpl. rewrite Hlook in Hc.
      case_decide as E; [left | right].
      * by injection Hc as <-.
      * split; [by intros -> | done].
    + intros H. exists name.
      assert (Hc : scratch (write_manifest w) !! name = Some content).
      { rewrite Hlook. destruct H as [[-> ->]|[Hne Hc]].
        - by rewrite decide_True.
        - by rewrite decide_False. }
      split.
      * unfold read_bytes. by rewrite Hc.
      * apply iterdir_sorted_spec. by exists content.
Qed.

Section Retry.

Variable cfg : settings.
Variable zip_stored : list (string * bytes) -> bytes.

Lemma aborted_run_leaves (chan : nat -> option Z) (timestamp now : string)
    (w w' : world) (k : nat) :
  upload_batch cfg zip_stored chan timestamp now w = Ok (w', Aborted k) ->
  scratch w' = <[meta_name := manifest (manifest_rows w)]> (scratch w)
  /\ recordings w' = recordings w
  /\ batches w' = batches w.
Proof.
  unfold upload_batch. intros H.
  destruct (archive cfg zip_stored timestamp w) as [[w1 loc]|err] eqn:Harch; [|done].
  simpl in H. injection H as H.
  apply archive_inv in Harch as (fs' & pp & _ & -> & _).
  apply upload_loop_effect in H as (Hr & _ & _ & _ & Hs & Hb & _).
  done.
Qed.

Lemma wav_files_insert_manifest (w w' : world) (m : bytes) :
  scratch w' = <[meta_name := m]> (scratch w) -> wav_files w' = wav_files w.
Proof.
  intros Hs. apply (StronglySorted_unique String.le).
  - apply wav_files_sorted.
  - apply wav_files_sorted.
  - apply NoDup_Permutation; [apply wav_files_NoDup | apply wav_files_NoDup |].
    intros name. rewrite !wav_files_spec, Hs. split.
    + intros [Hfile Hwav]. split; [|done].
      rewrite lookup_insert_ne in Hfile; [done|].
      symmetry. by apply wav_not_manifest.
    + intros [Hfile Hwav]. split; [|done].
      rewrite lookup_insert_ne; [done|].
      symmetry. by apply wav_not_manifest.
Qed.

(** X9.  After an attempt that ended in the [except] branch, a new
    attempt over the same directory finds the same rows in its lookups,
    writes a manifest equal to the one left behind, and hands the
    archive writer the same entries, names and bytes in the same
    order: the manifest left in the directory changes nothing of what
    is packed. *)
Theorem retry_archives_the_same
    (chan : nat -> option Z) (timestamp now : string) (w w' : world) (k : nat) :
  upload_batch_with_lookups cfg zip_stored chan timestamp now w
  = Ok (w', Aborted k) ->
  fetch_rows w = Ok (manifest_rows w)
  /\ fetch_rows w' = Ok (manifest_rows w)
  /\ scratch w' !! meta_name = Some (manifest (manifest_rows w))
  /\ scratch (write_manifest w') = scratch w'
  /\ zip_entries (write_manifest w') = zip_entries (write_manifest w).
Proof.
  unfold upload_batch_with_lookups. intros H.
  destruct (fetch_rows w) as [rows|e] eqn:Hfetch; [|done]. simpl in H.
  apply fetch_rows_agree in Hfetch as Hagree. subst rows.
  apply aborted_run_leaves in H as (Hs & Hr & _).
  assert (Hwav : wav_files w' = wav_files w)
    by apply (wav_files_insert_manifest w w' _ Hs).
  assert (Hrows : manifest_rows w' = manifest_rows w).
  { unfold manifest_rows. rewrite Hwav.
    apply list_fmap_ext. intros i x _. unfold manifest_row. by rewrite Hr. }
  assert (Hsame : scratch (write_manifest w') = scratch w').
  { unfold write_manifest. simpl. rewrite Hrows, Hs. apply insert_insert_eq. }
  split_and!.
  - done.
  - unfold fetch_rows in *. by rewrite Hr, Hwav.
  - rewrite Hs. apply lookup_insert_eq.
  - done.
  - apply zip_entries_scratch. by rewrite Hsame, Hs.
Qed.

Hypothesis chunk_pos : 0 < CHUNK_SIZE_BYTES cfg.

(** X10.  [upload_batch] on an empty scratch directory does not stop:
    the manifest holds the signature and the header line only, the
    archive holds that manifest alone, and when the transfers go through
    a row with [file_count = 0] is added to [batches]. *)
Theorem empty_directory_is_uploaded
    (chan : nat -> option Z) (timestamp now : string) (w : world) :
  scratch w = ∅ ->
  (forall j, 1 <= Z.of_nat j <= part_count cfg zip_stored w -> is_Some (chan j)) ->
  manifest_rows w = []
  /\ zip_entries (write_manifest w)
     = [(meta_name, Csv.BOM ++ list_byte_of_string (Csv.line fieldnames))]
  /\ exists w' row,
       upload_batch cfg zip_stored chan timestamp now w = Ok (w', Committed)
       /\ batches w' = batches w ++ [row]
       /\ file_count row = 0%nat
       /\ size_bytes row = length (archive_bytes zip_stored w).
Proof.
  intros Hempty Hchan.
  assert (Hrows : manifest_rows w = []).
  { unfold manifest_rows, wav_files. by rewrite Hempty, map_to_list_empty. }
  split; [done|]. split.
  - unfold zip_entries, iterdir_sorted, write_manifest. simpl.
    rewrite Hrows, Hempty, insert_empty, map_to_list_singleton. simpl.
    unfold read_bytes. by rewrite lookup_singleton_eq.
  - destruct (committed_run cfg zip_stored chunk_pos chan timestamp now w Hchan)
      as (w1 & loc & w' & Harch & Hrun & _ & _ & Hb & _).
    apply archive_locals in Harch as (_ & Hsize & Hr & _).
    exists w', (batch_record loc now). split_and!; [done | done | |].
    + simpl. by rewrite Hr, Hrows.
    + done.
Qed.

End Retry.

(** ** Requests and the event loop, continued *)

Lemma get_batch_size_scratch (w w' : world) :
  scratch w = scratch w' -> get_batch_size w = get_batch_size w'.
Proof. unfold get_batch_size. by intros ->. Qed.

Lemma get_batch_size_lookup (w : world) (name : string) :
  get_batch_size w
  = match scratch w !! name with
    | Some old => Z.of_nat (length old)
    | None => 0
    end + get_batch_size (set_scratch (delete name (scratch w)) w).
Proof.
  destruct (scratch w !! name) as [old|] eqn:Hold.
  - rewrite <- get_batch_size_insert. apply get_batch_size_scratch.
    simpl. by rewrite insert_id.
  - rewrite Z.add_0_l. apply get_batch_size_scratch. simpl.
    by rewrite delete_id.
Qed.

Lemma single_execute_last (rows : list recording_row) (r : recording_row) :
  (forall r', r' ∈ rows -> rec_task_id r' <> rec_task_id r) ->
  single_execute (rows ++ [r]) (rec_task_id r) = Ok r.
Proof.
  intros H. unfold single_execute.
  replace (List.filter (fun r' => String.eqb (rec_task_id r') (rec_task_id r))
             (rows ++ [r])) with [r]; [done|].
  symmetry. induction rows as [|r' rows IH].
  - simpl. by rewrite String.eqb_refl.
  - simpl. destruct (String.eqb_spec (rec_task_id r') (rec_task_id r)) as [E|E].
    + exfalso. apply (H r'); [left | done].
    + apply IH. intros r'' Hr''. apply H. by right.
Qed.

Lemma stem_dest (id : string) : id <> "" -> Path.stem (dest_name id) = id.
Proof.
  intros Hid. unfold Path.stem, Path.suffix_index, dest_name.
  change ".wav" with (String "." "wav").
  rewrite rfind_dot_app by done. rewrite string_app_length.
  change (String.length (String "." "wav")) with 4%nat.
  assert (Hlen : (0 < String.length id)%nat) by (destruct id; [done | simpl; lia]).
  replace ((0 <? String.length id)%nat
           && (String.length id <? String.length id + 4 - 1)%nat)%bool with true.
  2:{ symmetry. apply andb_true_iff. split; apply Nat.ltb_lt; lia. }
  apply substring_app_head.
Qed.

Lemma mark_recorded_unknown (id : string) (rows : list task_row) :
  (forall t, t ∈ rows -> task_id t <> id) -> mark_recorded id rows = rows.
Proof.
  unfold mark_recorded. induction rows as [|t rows IH]; intros H; [done|].
  rewrite fmap_cons. rewrite IH by (intros t' Ht'; apply H; by right).
  destruct (String.eqb_spec (task_id t) id) as [E|E]; [|done].
  exfalso. apply (H t); [left | done].
Qed.

Section Requests.

Variable cfg : settings.
Variable zip_stored : list (string * bytes) -> bytes.

(** X11.  The pending byte total an accepted request computes after
    its write ([batch_bytes], line 403; the response carries it as
    [batch_mb], in MiB rounded to two decimals), for a plain task
    identifier: a recording for a task without a file adds its size to
    the total; one for a task that has a file replaces that file's size
    by its own, so a task counts once however often it is submitted. *)
Theorem submit_counts_each_task_once
    (content_type id transcript : string) (audio : bytes) (now : string)
    (s : system) :
  plain_id id = true ->
  existsb (String.eqb content_type) ALLOWED = true ->
  upload_lock s = false ->
  exists s' batch_bytes,
    submit cfg content_type id transcript audio now s
    = Some (s', Accepted id batch_bytes)
    /\ batch_bytes = get_batch_size (sys_world s')
    /\ batch_bytes
       = get_batch_size (sys_world s)
         - match scratch (sys_world s) !! dest_name id with
           | Some old => Z.of_nat (length old)
           | None => 0
           end
         + Z.of_nat (length audio).
Proof.
  intros _ Hct Hlock. rewrite (submit_accepted _ _ _ _ _ _ _ Hct Hlock).
  eexists _, _. split; [done|]. split; [done|].
  rewrite (get_batch_size_lookup (sys_world s) (dest_name id)).
  unfold record_submission.
  rewrite (get_batch_size_scratch _
             (set_scratch (<[dest_name id := audio]> (scratch (sys_world s)))
                (sys_world s))) by done.
  rewrite get_batch_size_insert. lia.
Qed.

(** X12.  From the start of the process on, whatever the event loop has
    run, [upload_lock] is free between two steps: it is taken and
    released without an [await] in between, so no request ever waits
    for it, and every request gets its response. *)
Theorem submit_never_waits (w : world) (events : list event) (s : system) :
  run cfg zip_stored (boot w) events = Some s ->
  upload_lock s = false
  /\ forall content_type id transcript audio now,
       is_Some (submit cfg content_type id transcript audio now s).
Proof.
  intros Hrun. apply run_lock_free in Hrun; [|done]. split; [done|].
  intros ct id tr audio now.
  destruct (existsb (String.eqb ct) ALLOWED) eqn:Hct.
  - by rewrite (submit_accepted _ _ _ _ _ _ _ Hct Hrun).
  - unfold submit. by rewrite Hct.
Qed.

(** X15.  A recording accepted for a task that has no row in
    [recordings] yet, under a plain, non-empty identifier: its file is
    among those the next promotion lists, the lookup for the file's
    stem finds the one row just written, and whenever the lookups of
    the promotion all return, the rows of the manifest hold the file
    with the transcript submitted. *)
Theorem submitted_transcript_reaches_manifest
    (id transcript : string) (audio : bytes) (now : string) (w : world) :
  plain_id id = true ->
  id <> "" ->
  (forall r, r ∈ recordings w -> rec_task_id r <> id) ->
  let w' := record_submission id transcript audio now w in
  dest_name id ∈ wav_files w'
  /\ single_execute (recordings w') (Path.stem (dest_name id))
     = Ok {| rec_task_id := id; rec_filename := dest_name id;
             rec_transcript := transcript; rec_created_at := now |}
  /\ (forall rows, fetch_rows w' = Ok rows -> (dest_name id, transcript) ∈ rows).
Proof.
  intros _ Hid Hfresh w'.
  set (r := {| rec_task_id := id; rec_filename := dest_name id;
               rec_transcript := transcript; rec_created_at := now |}).
  assert (Hwav : dest_name id ∈ wav_files w').
  { apply wav_files_spec. split; [|apply ends_with_dest].
    unfold w'. simpl. rewrite lookup_insert_eq. by eexists. }
  assert (Hone : single_execute (recordings w') (Path.stem (dest_name id)) = Ok r).
  { rewrite stem_dest by done.
    apply (single_execute_last (recordings w) r Hfresh). }
  split_and!; [done | done |].
  intros rows ->%fetch_rows_agree.
  assert (Hrow : manifest_row w' (dest_name id) = (dest_name id, transcript)).
  { unfold manifest_row. by rewrite (single_execute_select _ _ _ Hone). }
  unfold manifest_rows. rewrite <- Hrow. by apply list_elem_of_fmap_2.
Qed.

(** X16.  [submit] does not ask whether the task was ever issued: for a
    plain task identifier that no row of [tasks] carries, the request
    is accepted all the same, the recording and its row are stored, and
    [tasks] is left as it was. *)
Theorem unknown_task_is_recorded
    (content_type id transcript : string) (audio : bytes) (now : string)
    (s : system) :
  plain_id id = true ->
  existsb (String.eqb content_type) ALLOWED = true ->
  upload_lock s = false ->
  (forall t, t ∈ tasks (sys_world s) -> task_id t <> id) ->
  exists s' batch_bytes,
    submit cfg content_type id transcript audio now s
    = Some (s', Accepted id batch_bytes)
    /\ tasks (sys_world s') = tasks (sys_world s)
    /\ scratch (sys_world s') !! dest_name id = Some audio
    /\ recordings (sys_world s')
       = recordings (sys_world s)
         ++ [{| rec_task_id := id; rec_filename := dest_name id;
                rec_transcript := transcript; rec_created_at := now |}].
Proof.
  intros _ Hct Hlock Hunknown. rewrite (submit_accepted _ _ _ _ _ _ _ Hct Hlock).
  eexists _, _. split; [done|]. simpl. split_and!.
  - by apply mark_recorded_unknown.
  - apply lookup_insert_eq.
  - done.
Qed.

End Requests.

Section Ledger.

Variable cfg : settings.
Variable zip_stored : list (string * bytes) -> bytes.

Lemma next_part_grows (loc : locals) (now : string) (i : nat)
    (remaining : list string) (first : option Z) (w w' : world) (t : task_state) :
  next_part loc now i remaining first w = (w', t) ->
  batches w `prefix_of` batches w'
  /\ recordings w' = recordings w
  /\ sent w `prefix_of` sent w'.
Proof.
  unfold next_part. destruct remaining as [|part rest].
  - intros [= <- <-]. simpl. split_and!; [by eexists | done | done].
  - unfold send_part. destruct (tmp w !! part); intros [= <- <-]; simpl.
    + split_and!; [done | done | by eexists].
    + done.
Qed.

Lemma step_grows (s s' : system) (e : event) :
  step cfg zip_stored s e = Some s' ->
  batches (sys_world s) `prefix_of` batches (sys_world s')
  /\ recordings (sys_world s) `prefix_of` recordings (sys_world s')
  /\ sent (sys_world s) `prefix_of` sent (sys_world s').
Proof.
  intros H. destruct e as [ct id tr audio now|j ts now|j answer now]; simpl in H.
  - unfold submit in H. destruct (existsb (String.eqb ct) ALLOWED); simpl in H.
    + assert (Hw : sys_world s' = record_submission id tr audio now (sys_world s)).
      { destruct (_ <=? _) in H.
        - unfold gated_section in H. destruct (upload_lock _) in H; [done|].
          simpl in H. injection H as <-. by destruct (_ <=? _).
        - by injection H as <-. }
      rewrite Hw. simpl. split_and!; [done | by eexists | done].
    + by injection H as <-.
  - destruct (promotions s !! j) as [[| | |]|]; try done.
    destruct (upload_batch_start _ _ _ _ _) as [w t] eqn:Hstart.
    injection H as <-. simpl. unfold upload_batch_start in Hstart.
    destruct (archive cfg zip_stored ts (sys_world s)) as [[w1 loc]|err] eqn:Harch.
    + apply archive_inv in Harch as (fs' & pp & _ & -> & _).
      apply next_part_grows in Hstart as (Hb & Hr & Hs). simpl in *.
      rewrite Hr. done.
    + by injection Hstart as <- <-.
  - destruct (promotions s !! j) as [[|susp| |]|]; try done.
    destruct (upload_batch_resume _ _ _ _) as [w t] eqn:Hres.
    injection H as <-. simpl. unfold upload_batch_resume, sent_part in Hres.
    destruct answer as [m|].
    + destruct (tmp (sys_world s) !! s_part susp).
      * apply next_part_grows in Hres as (Hb & Hr & Hs). simpl in *.
        rewrite Hr. done.
      * by injection Hres as <- <-.
    + by injection Hres as <- <-.
Qed.

(** X13.  Over any run of the event loop, [batches], [recordings] and
    the log of calls only grow at their end: a row once written is
    neither changed nor removed.  In particular the rows of [recordings]
    stay after a commit has removed the files. *)
Theorem written_rows_are_kept (events : list event) (s s' : system) :
  run cfg zip_stored s events = Some s' ->
  batches (sys_world s) `prefix_of` batches (sys_world s')
  /\ recordings (sys_world s) `prefix_of` recordings (sys_world s')
  /\ sent (sys_world s) `prefix_of` sent (sys_world s').
Proof.
  revert s. induction events as [|e events IH]; intros s H; simpl in H.
  - by injection H as <-.
  - destruct (step cfg zip_stored s e) as [s1|] eqn:Hstep; [|done]. simpl in H.
    apply IH in H as (Hb & Hr & Hs).
    apply step_grows in Hstep as (Hb1 & Hr1 & Hs1).
    split_and!; etrans; done.
Qed.


End Ledger.

(** ** Text cleaning *)

Module TextFacts.

Import Text.
Local Open Scope N_scope.

Lemma kept_space_only (c : N) : kept c = true -> isspace c = true -> c = SPACE.
Proof.
  unfold kept, isspace, in_range, SPACE.
  rewrite !orb_true_iff, !andb_true_iff, !N.leb_le, !N.eqb_eq. lia.
Qed.

Lemma space_kept : kept SPACE = true /\ ornament SPACE = false /\ isspace SPACE = true.
Proof. done. Qed.

Lemma filters_clean (s : ustr) :
  Forall clean_char (List.filter kept (List.filter (fun c => negb (ornament c)) s)).
Proof.
  apply Forall_forall. intros c Hc.
  apply list_elem_of_In, filter_In in Hc as [Hc Hk].
  apply filter_In in Hc as [_ Ho]. split; [done | by apply negb_true_iff].
Qed.

Lemma filters_id (s : ustr) :
  Forall clean_char s ->
  List.filter kept (List.filter (fun c => negb (ornament c)) s) = s.
Proof.
  induction 1 as [|c s [Hk Ho] _ IH]; [done|].
  simpl. rewrite Ho. simpl. rewrite Hk. by rewrite IH.
Qed.

Lemma squeeze_go_clean (b : bool) (s : ustr) :
  Forall clean_char s -> Forall clean_char (squeeze_go b s).
Proof.
  intros H. revert b. induction H as [|c s Hc _ IH]; intros b; [done|].
  simpl. destruct (c =? SPACE) eqn:E.
  - destruct b; [apply IH|]. constructor; [|apply IH]. split; done.
  - constructor; [done | apply IH].
Qed.

Lemma lstrip_suffix (s : ustr) : lstrip s `suffix_of` s.
Proof.
  induction s as [|c s IH]; [done|]. simpl. destruct (isspace c); [|done].
  by apply suffix_cons_r.
Qed.

Lemma lstrip_clean (s : ustr) : Forall clean_char s -> Forall clean_char (lstrip s).
Proof.
  intros H. destruct (lstrip_suffix s) as [k Hk]. rewrite Hk in H.
  by apply Forall_app in H as [_ H].
Qed.

Lemma strip_clean (s : ustr) : Forall clean_char s -> Forall clean_char (strip s).
Proof.
  intros H. unfold strip, rstrip.
  apply Forall_reverse, lstrip_clean, Forall_reverse, lstrip_clean, H.
Qed.

Lemma squeeze_go_idem (s : ustr) :
  forall b, squeeze_go b (squeeze_go b s) = squeeze_go b s.
Proof.
  induction s as [|c s IH]; intros b; [done|].
  simpl. destruct (c =? SPACE) eqn:E.
  - destruct b; [apply IH|]. simpl. by rewrite IH.
  - simpl. rewrite E. by rewrite IH.
Qed.

Lemma squeeze_go_head (s : ustr) : head (squeeze_go true s) <> Some SPACE.
Proof.
  induction s as [|c s IH]; [done|]. simpl.
  destruct (c =? SPACE) eqn:E; [done|]. simpl. intros [= ->]. done.
Qed.

Lemma has_run_cons (a b : N) (r : ustr) :
  has_run (a :: b :: r) = ((a =? SPACE) && (b =? SPACE)) || has_run (b :: r).
Proof. done. Qed.

Lemma squeeze_go_no_run (s : ustr) : forall b, has_run (squeeze_go b s) = false.
Proof.
  induction s as [|c s IH]; intros b; [done|]. simpl.
  destruct (c =? SPACE) eqn:E.
  - destruct b; [apply IH|].
    pose proof (squeeze_go_head s) as Hh. pose proof (IH true) as Hr.
    destruct (squeeze_go true s) as [|d r]; [done|].
    rewrite has_run_cons, Hr, orb_false_r. apply andb_false_iff. right.
    apply N.eqb_neq. intros ->. by apply Hh.
  - pose proof (IH false) as Hr.
    destruct (squeeze_go false s) as [|d r]; [done|].
    rewrite has_run_cons. by rewrite Hr, E.
Qed.

Lemma no_run_squeeze_go (s : ustr) :
  forall b, (b = true -> head s <> Some SPACE) ->
            has_run s = false -> squeeze_go b s = s.
Proof.
  induction s as [|c s IH]; intros b Hb Hr; [done|]. simpl.
  assert (Hr' : has_run s = false).
  { destruct s as [|d r]; [done|]. rewrite has_run_cons in Hr.
    by apply orb_false_iff in Hr as [_ Hr]. }
  destruct (c =? SPACE) eqn:E.
  - apply N.eqb_eq in E. subst c. destruct b; [by exfalso; apply Hb|].
    f_equal. apply IH; [|done]. intros _.
    destruct s as [|d r]; [done|]. rewrite has_run_cons in Hr.
    apply orb_false_iff in Hr as [Hr _]. simpl in Hr.
    apply N.eqb_neq in Hr. simpl. by intros [= ->].
  - f_equal. by apply IH.
Qed.

Lemma has_run_suffix (l1 l2 : ustr) : has_run (l1 ++ l2) = false -> has_run l2 = false.
Proof.
  induction l1 as [|a l1 IH]; [done|]. intros H. apply IH.
  destruct (l1 ++ l2) as [|d r] eqn:E; [done|].
  rewrite <- app_comm_cons in H. rewrite E, has_run_cons in H.
  by apply orb_false_iff in H as [_ H].
Qed.

Lemma has_run_prefix (l1 l2 : ustr) : has_run (l1 ++ l2) = false -> has_run l1 = false.
Proof.
  induction l1 as [|a l1 IH]; [done|]. intros H.
  destruct l1 as [|b l1]; [done|].
  rewrite <- !app_comm_cons, has_run_cons in H.
  apply orb_false_iff in H as [H1 H2].
  rewrite has_run_cons, H1. simpl. by apply IH.
Qed.

Lemma lstrip_head (s : ustr) (c : N) : head (lstrip s) = Some c -> isspace c = false.
Proof.
  induction s as [|d s IH]; [done|]. simpl.
  destruct (isspace d) eqn:E; [done|]. simpl. by intros [= <-].
Qed.

Lemma lstrip_fix (s : ustr) :
  (forall c, head s = Some c -> isspace c = false) -> lstrip s = s.
Proof.
  destruct s as [|d s]; [done|]. intros H. simpl. by rewrite (H d).
Qed.

Lemma lstrip_idem (s : ustr) : lstrip (lstrip s) = lstrip s.
Proof. apply lstrip_fix, lstrip_head. Qed.

Lemma lstrip_snoc (l : ustr) (c : N) :
  isspace c = false -> lstrip (l ++ [c]) = lstrip l ++ [c].
Proof.
  intros Hc. induction l as [|d l IH]; simpl.
  - by rewrite Hc.
  - destruct (isspace d); [done | done].
Qed.

Lemma rstrip_cons (c : N) (s : ustr) :
  isspace c = false -> rstrip (c :: s) = c :: rstrip s.
Proof.
  intros Hc. unfold rstrip. rewrite reverse_cons, lstrip_snoc by done.
  by rewrite reverse_app.
Qed.

Lemma rstrip_prefix (s : ustr) : rstrip s `prefix_of` s.
Proof.
  unfold rstrip. destruct (lstrip_suffix (reverse s)) as [k Hk].
  exists (reverse k). apply (inj reverse).
  by rewrite reverse_app, !reverse_involutive.
Qed.

Lemma rstrip_idem (s : ustr) : rstrip (rstrip s) = rstrip s.
Proof. unfold rstrip. by rewrite reverse_involutive, lstrip_idem. Qed.

Lemma strip_head (s : ustr) (c : N) : head (strip s) = Some c -> isspace c = false.
Proof.
  unfold strip. pose proof (lstrip_head s) as H.
  destruct (lstrip s) as [|d r]; [done|].
  rewrite rstrip_cons by (by apply H). simpl. intros [= <-]. by apply H.
Qed.

Lemma strip_last (s : ustr) (c : N) : last (strip s) = Some c -> isspace c = false.
Proof.
  unfold strip, rstrip. rewrite last_reverse. apply lstrip_head.
Qed.

Lemma strip_idem (s : ustr) : strip (strip s) = strip s.
Proof.
  unfold strip. rewrite (lstrip_fix (rstrip (lstrip s))).
  - apply rstrip_idem.
  - apply (strip_head s).
Qed.

Lemma strip_no_run (s : ustr) : has_run s = false -> has_run (strip s) = false.
Proof.
  intros H. unfold strip.
  destruct (lstrip_suffix s) as [k1 Hk1].
  destruct (rstrip_prefix (lstrip s)) as [k2 Hk2].
  rewrite Hk1 in H. apply has_run_suffix in H. rewrite Hk2 in H.
  by apply has_run_prefix in H.
Qed.

(** X17.  The text [clean_text] returns holds only characters of the
    kept ranges and the space, none of them an ayah sign, an ornate
    parenthesis, a digit or a bracket. *)
Theorem clean_text_alphabet (raw : ustr) :
  Forall (fun c => kept c = true /\ ornament c = false) (clean_text raw).
Proof.
  unfold clean_text. apply strip_clean, squeeze_go_clean, filters_clean.
Qed.

(** X18.  The text [clean_text] returns has no two spaces in a row and
    neither starts nor ends with a whitespace character; the space is
    the only whitespace character it can hold at all. *)
Theorem clean_text_spacing (raw : ustr) :
  has_run (clean_text raw) = false
  /\ (forall c, head (clean_text raw) = Some c -> isspace c = false)
  /\ (forall c, last (clean_text raw) = Some c -> isspace c = false)
  /\ (forall c, c ∈ clean_text raw -> isspace c = true -> c = SPACE).
Proof.
  split_and!.
  - unfold clean_text. apply strip_no_run, squeeze_go_no_run.
  - apply strip_head.
  - apply strip_last.
  - intros c Hc Hs.
    pose proof (strip_clean _ (squeeze_go_clean false _ (filters_clean raw))) as H.
    eapply Forall_forall in H as [Hk _]; [|exact Hc]. by apply kept_space_only.
Qed.

Lemma clean_text_idem (raw : ustr) : clean_text (clean_text raw) = clean_text raw.
Proof.
  pose proof (strip_clean _ (squeeze_go_clean false _ (filters_clean raw))) as Hclean.
  assert (Hrun : has_run (clean_text raw) = false)
    by (unfold clean_text; apply strip_no_run, squeeze_go_no_run).
  change (Forall clean_char (clean_text raw)) in Hclean.
  unfold clean_text at 1. rewrite (filters_id _ Hclean).
  unfold squeeze. rewrite (no_run_squeeze_go _ false); [| done | done].
  unfold clean_text. apply strip_idem.
Qed.

(** X19.  [clean_text] is idempotent: cleaning a cleaned text changes
    nothing. *)
Theorem clean_text_idempotent (raw : ustr) :
  clean_text (clean_text raw) = clean_text raw.
Proof. apply clean_text_idem. Qed.

End TextFacts.

(** ** Loading the Quran data *)

Module QuranFacts.

Import Quran.

Lemma key_le_total (a b : verse) : key_le a b = false -> key_le b a = true.
Proof.
  unfold key_le. rewrite orb_false_iff, andb_false_iff, orb_true_iff, andb_true_iff.
  rewrite !Z.ltb_ge, !Z.ltb_lt, !Z.eqb_neq, !Z.eqb_eq, !Z.leb_gt, !Z.leb_le. lia.
Qed.

Lemma key_le_trans (a b c : verse) :
  key_le a b = true -> key_le b c = true -> key_le a c = true.
Proof.
  unfold key_le. rewrite !orb_true_iff, !andb_true_iff.
  rewrite !Z.ltb_lt, !Z.eqb_eq, !Z.leb_le. lia.
Qed.

Lemma insert_by_key_perm (x : verse) (l : list verse) : insert_by_key x l ≡ₚ x :: l.
Proof.
  induction l as [|y l IH]; [done|]. simpl.
  destruct (key_le x y); [done|]. rewrite IH. apply Permutation_swap.
Qed.

Lemma sort_by_key_perm (l : list verse) : sort_by_key l ≡ₚ l.
Proof.
  induction l as [|x l IH]; [done|]. simpl.
  by rewrite insert_by_key_perm, IH.
Qed.

Lemma insert_by_key_sorted (x : verse) (l : list verse) :
  StronglySorted (fun a b => key_le a b = true) l ->
  StronglySorted (fun a b => key_le a b = true) (insert_by_key x l).
Proof.
  induction 1 as [|y l Hl IH Hy]; simpl.
  - repeat constructor.
  - destruct (key_le x y) eqn:E.
    + constructor; [by constructor|]. constructor; [done|].
      eapply Forall_impl; [exact Hy|]. intros z Hz. by eapply key_le_trans.
    + constructor; [done|].
      rewrite insert_by_key_perm. constructor; [by apply key_le_total | done].
Qed.

Lemma sort_by_key_sorted (l : list verse) :
  StronglySorted (fun a b => key_le a b = true) (sort_by_key l).
Proof.
  induction l as [|x l IH]; [constructor|]. simpl. by apply insert_by_key_sorted.
Qed.

Section Load.

Variable int : string -> option Z.

Lemma surah_verses_spec (s : string) (ayahs : list entry) (vs : list verse) :
  surah_verses int s ayahs = Some vs ->
  length vs = length ayahs
  /\ forall v, v ∈ vs <->
       exists e n, e ∈ ayahs /\ int s = Some n
                   /\ v = {| surah := n; ayah := number e; text := entry_text e |}.
Proof.
  unfold surah_verses. intros H. apply mapM_Some in H.
  split; [symmetry; by eapply Forall2_length|].
  intros v. split.
  - intros Hv. apply list_elem_of_lookup in Hv as [i Hi].
    destruct (Forall2_lookup_r _ _ _ _ _ H Hi) as (e & He & Hev).
    destruct (int s) as [n|]; [|done]. simpl in Hev. injection Hev as <-.
    exists e, n. split; [by eapply list_elem_of_lookup_2 | done].
  - intros (e & n & He & Hn & ->). apply list_elem_of_lookup in He as [i Hi].
    destruct (Forall2_lookup_l _ _ _ _ _ H Hi) as (v & Hv & Hev).
    rewrite Hn in Hev. simpl in Hev. injection Hev as <-.
    by eapply list_elem_of_lookup_2.
Qed.

Lemma flatten_spec (d : list (string * list entry)) :
  forall flat, flatten int d = Some flat ->
    length flat = sum_list (length ∘ snd <$> d)
    /\ forall v, v ∈ flat <->
         exists s ayahs e n,
           (s, ayahs) ∈ d /\ e ∈ ayahs /\ int s = Some n
           /\ v = {| surah := n; ayah := number e; text := entry_text e |}.
Proof.
  induction d as [|[s ayahs] d IH]; intros flat H; simpl in H.
  - injection H as <-. split; [done|]. intros v. split.
    + by intros ?%elem_of_nil.
    + intros (? & ? & ? & ? & ?%elem_of_nil & _). done.
  - destruct (surah_verses int s ayahs) as [vs|] eqn:Hvs; [|done]. simpl in H.
    destruct (flatten int d) as [rest|] eqn:Hrest; [|done]. simpl in H.
    injection H as <-.
    apply surah_verses_spec in Hvs as [Hlen Hmem].
    destruct (IH rest eq_refl) as [Hlen' Hmem'].
    split.
    + rewrite length_app, fmap_cons. simpl. lia.
    + intros v. rewrite elem_of_app, Hmem, Hmem'. split.
      * intros [(e & n & He & Hn & ->)|(s' & a' & e & n & Hin & He & Hn & ->)].
        -- exists s, ayahs, e, n. split; [left | done].
        -- exists s', a', e, n. split; [by right | done].
      * intros (s' & a' & e & n & Hin & He & Hn & ->).
        apply elem_of_cons in Hin as [[= -> ->]|Hin].
        -- left. by exists e, n.
        -- right. by exists s', a', e, n.
Qed.

(** X20.  [load_quran] on the nested format: the list it returns is in
    ascending order of (surah, ayah); it holds one record per ayah of
    the file, with the surah number parsed from the key and the ayah's
    own number and text; nothing else is in it. *)
Theorem load_quran_nested_sorted
    (d : list (string * list entry)) (l : list verse) :
  load_quran int (Some (BySurah d)) = Loaded l ->
  StronglySorted (fun a b => key_le a b = true) l
  /\ length l = sum_list (length ∘ snd <$> d)
  /\ forall v, v ∈ l <->
       exists s ayahs e n,
         (s, ayahs) ∈ d /\ e ∈ ayahs /\ int s = Some n
         /\ v = {| surah := n; ayah := number e; text := entry_text e |}.
Proof.
  unfold load_quran. destruct (flatten int d) as [flat|] eqn:Hflat; [|done].
  intros [= <-]. apply flatten_spec in Hflat as [Hlen Hmem]. split_and!.
  - apply sort_by_key_sorted.
  - by rewrite sort_by_key_perm.
  - intros v. by rewrite sort_by_key_perm.
Qed.

End Load.

End QuranFacts.

(** ** Task sampling *)

Module SamplingFacts.

Import Sampling.

(** X21.  The window mode, with [start] in the range [randint] draws it
    from: the words taken are consecutive words of the ayah, starting at
    word [start], and there are exactly min(drawn, wlen) of them; the
    bound on [start] keeps the window from running off the end. *)
Theorem window_is_never_short (t : list N) (drawn start : nat) :
  (start <= length (split t) - Nat.min drawn (length (split t)))%nat ->
  length (window_words t drawn start) = Nat.min drawn (length (split t))
  /\ exists before after,
       split t = before ++ window_words t drawn start ++ after
       /\ length before = start.
Proof.
  intros Hstart. unfold window_words.
  set (words := split t) in *. set (win := Nat.min drawn (length words)) in *.
  split.
  - rewrite length_take, length_drop. lia.
  - exists (take start words), (drop win (drop start words)). split.
    + by rewrite take_drop, take_drop.
    + rewrite length_take. lia.
Qed.

(** X22.  The bridging mode never reads past the data: after the last
    ayah comes the last ayah itself.  The text is built from at most
    five words from the end of the ayah drawn and at most five from the
    start of the next, ten at most. *)
Theorem bridging_stays_in_range (data : list Quran.verse) (d : draws) :
  roll d = bridging ->
  (idx d < length data)%nat ->
  exists curr next words,
    data !! idx d = Some curr
    /\ data !! (if decide (idx d + 1 < length data)%nat then (idx d + 1)%nat else idx d)
       = Some next
    /\ words = bridging_words (Quran.text curr) (Quran.text next)
    /\ (length words <= 10)%nat
    /\ get_random_task data d
       = Some {| t_task_id := uuid d;
                 t_text := Text.clean_text (join [Text.SPACE] words);
                 t_mode := bridging;
                 t_surah := Quran.surah curr;
                 t_ayah := Quran.ayah curr |}.
Proof.
  intros Hroll Hidx.
  destruct (lookup_lt_is_Some_2 data (idx d) Hidx) as [curr Hcurr].
  set (j := if decide (idx d + 1 < length data)%nat then (idx d + 1)%nat else idx d).
  assert (Hj : Nat.min (idx d + 1) (length data - 1) = j).
  { unfold j. case_decide; lia. }
  assert (Hjlt : (j < length data)%nat) by (unfold j; case_decide; lia).
  destruct (lookup_lt_is_Some_2 data j Hjlt) as [next Hnext].
  exists curr, next, (bridging_words (Quran.text curr) (Quran.text next)).
  split_and!; try done.
  - unfold bridging_words. rewrite length_app, length_drop, length_take. lia.
  - unfold get_random_task. rewrite Hcurr, Hroll. simpl. rewrite Hj, Hnext. done.
Qed.

(** X23.  With an index inside the data, [get_random_task] returns a
    task in every mode and for all other draws: its id is the one
    drawn, its surah and ayah are those of the record drawn, and its
    text is a cleaned text (cleaning it again changes nothing).  With an
    index outside, and so with no data at all, there is no task. *)
Theorem get_random_task_in_range (data : list Quran.verse) (d : draws) :
  ((idx d < length data)%nat ->
   exists t curr,
     get_random_task data d = Some t
     /\ data !! idx d = Some curr
     /\ t_task_id t = uuid d /\ t_mode t = roll d
     /\ t_surah t = Quran.surah curr /\ t_ayah t = Quran.ayah curr
     /\ Text.clean_text (t_text t) = t_text t)
  /\ ((length data <= idx d)%nat -> get_random_task data d = None).
Proof.
  split.
  - intros Hidx.
    destruct (lookup_lt_is_Some_2 data (idx d) Hidx) as [curr Hcurr].
    assert (Hnext : is_Some (data !! Nat.min (idx d + 1) (length data - 1))).
    { apply lookup_lt_is_Some_2. lia. }
    destruct Hnext as [next Hnext].
    unfold get_random_task. rewrite Hcurr. simpl. rewrite Hnext.
    destruct (roll d); simpl; eexists _, curr;
      (split_and!; [done | done | done | done | done | done |]);
      apply TextFacts.clean_text_idem.
  - intros Hidx. unfold get_random_task.
    by rewrite (lookup_ge_None_2 data (idx d)).
Qed.

Section Tasks.

Variable cfg : settings.
Variable encode : list N -> string.

(** X24.  A task handed out by [get_task] and then submitted: its row,
    inserted with status "pending", has status "recorded" after the
    accepted request, and the rows of the other tasks are as before. *)
Theorem issued_task_becomes_recorded
    (data : list Quran.verse) (d : draws) (s : system) (w1 : world) (t : task)
    (content_type transcript : string) (audio : bytes) (now : string) :
  get_task encode data d (sys_world s) = Some (w1, t) ->
  (forall r, r ∈ tasks (sys_world s) -> task_id r <> uuid d) ->
  existsb (String.eqb content_type) ALLOWED = true ->
  upload_lock s = false ->
  exists s' batch_bytes,
    submit cfg content_type (t_task_id t) transcript audio now (set_world w1 s)
    = Some (s', Accepted (uuid d) batch_bytes)
    /\ tasks w1 = tasks (sys_world s) ++ [pending_row encode t]
    /\ tasks (sys_world s')
       = tasks (sys_world s)
         ++ [{| task_id := uuid d;
                task_text := encode (t_text t);
                task_mode := mode_name (t_mode t);
                task_surah := t_surah t;
                task_ayah := t_ayah t;
                task_status := "recorded" |}].
Proof.
  intros Hget Hfresh Hct Hlock. unfold get_task in Hget.
  destruct (get_random_task data d) as [t'|] eqn:Ht; [|done].
  simpl in Hget. injection Hget as <- <-.
  assert (Hid : t_task_id t' = uuid d).
  { unfold get_random_task in Ht. destruct (data !! idx d); [|done]. simpl in Ht.
    destruct (match roll d with full_verse => _ | _ => _ end); [|done].
    simpl in Ht. by injection Ht as <-. }
  rewrite (submit_accepted cfg _ _ _ _ _ (set_world _ s) Hct) by done.
  rewrite Hid. eexists _, _. split; [done|]. split; [done|].
  cbn [sys_world set_world record_submission tasks set_tasks insert_recording
       set_scratch].
  unfold mark_recorded. rewrite fmap_app. f_equal.
  - apply (mark_recorded_unknown (uuid d)). exact Hfresh.
  - simpl. rewrite Hid, String.eqb_refl. done.
Qed.

End Tasks.

End SamplingFacts.

(** ** Worked instances, continued *)

Lemma split_file_part_sizes_witness :
  exists fs' part_paths,
    split_file {[ "b.zip" := Sample.bs "abcdefg" ]} "b.zip" 3 = Ok (fs', part_paths)
    /\ (fun p => length (read_bytes fs' p)) <$> part_paths = [3; 3; 1]%nat.
Proof.
  destruct (split_file_part_sizes {[ "b.zip" := Sample.bs "abcdefg" ]} "b.zip"
              (Sample.bs "abcdefg") 3)
    as (fs' & pp & Hrun & Hsizes & _).
  - vm_compute. reflexivity.
  - reflexivity.
  - vm_compute. reflexivity.
  - exists fs', pp. split; [exact Hrun|]. rewrite Hsizes. vm_compute. reflexivity.
Defined.

Lemma split_file_writes_only_parts_witness :
  exists fs' part_paths,
    split_file (<["notes.txt" := Sample.bs "n"]> {[ "b.zip" := Sample.bs "abcdefg" ]})
      "b.zip" 3 = Ok (fs', part_paths)
    /\ fs' !! "b.zip" = Some (Sample.bs "abcdefg")
    /\ fs' !! "notes.txt" = Some (Sample.bs "n").
Proof.
  destruct (split_file_writes_only_parts
              (<["notes.txt" := Sample.bs "n"]> {[ "b.zip" := Sample.bs "abcdefg" ]})
              "b.zip" (Sample.bs "abcdefg") 3)
    as (fs' & pp & Hrun & Hsrc & Hframe & _).
  - vm_compute. reflexivity.
  - reflexivity.
  - vm_compute. reflexivity.
  - exists fs', pp. split; [exact Hrun|]. split; [exact Hsrc|].
    rewrite Hframe.
    + vm_compute. reflexivity.
    + intros n E. unfold part_path in E. rewrite with_suffix_split in E.
      vm_compute in E. discriminate E.
Defined.

Lemma split_file_zero_ceiling_witness :
  split_file {[ "b.zip" := Sample.bs "abcdefg" ]} "b.zip" 0
  = Ok ({[ "b.zip" := Sample.bs "abcdefg" ]}, []).
Proof.
  apply (split_file_zero_ceiling _ "b.zip" (Sample.bs "abcdefg")).
  vm_compute. reflexivity.
Defined.

Lemma split_file_negative_ceiling_witness :
  split_file {[ "b.zip" := Sample.bs "abcdefg" ]} "b.zip" (-1)
  = Ok (<["b.part001" := Sample.bs "abcdefg"]> {[ "b.zip" := Sample.bs "abcdefg" ]},
        ["b.part001"]).
Proof.
  apply (split_file_negative_ceiling _ "b.zip" (Sample.bs "abcdefg")).
  - vm_compute. reflexivity.
  - discriminate.
  - vm_compute. reflexivity.
Defined.



Lemma retry_archives_the_same_witness :
  upload_batch_with_lookups Sample.small Sample.container (Sample.fails_at 2)
    "T" "t9" Sample2.listed = Ok (Sample2.after_abort, Aborted 2)
  /\ fetch_rows Sample2.after_abort
     = Ok [("a.wav", "alif"); ("b.wav", "ba"); ("c.wav", "ta")]
  /\ zip_entries (write_manifest Sample2.after_abort)
     = zip_entries (write_manifest Sample2.listed).
Proof.
  assert (Hrun : upload_batch_with_lookups Sample.small Sample.container
                   (Sample.fails_at 2) "T" "t9" Sample2.listed
                 = Ok (Sample2.after_abort, Aborted 2))
    by (vm_compute; reflexivity).
  split; [exact Hrun|].
  destruct (retry_archives_the_same Sample.small Sample.container
              (Sample.fails_at 2) "T" "t9" Sample2.listed Sample2.after_abort 2 Hrun)
    as (_ & Hfetch & _ & _ & Hentries).
  split; [|exact Hentries].
  rewrite Hfetch. vm_compute. reflexivity.
Defined.

Lemma empty_directory_is_uploaded_witness :
  exists w' row,
    upload_batch Sample.small Sample.container Sample.always "T" "t9"
      (set_scratch ∅ Sample.dir) = Ok (w', Committed)
    /\ batches w' = [row]
    /\ file_count row = 0%nat.
Proof.
  destruct (empty_directory_is_uploaded Sample.small Sample.container
              ltac:(reflexivity) Sample.always "T" "t9" (set_scratch ∅ Sample.dir))
    as (_ & _ & w' & row & Hrun & Hb & Hcount & _).
  - reflexivity.
  - intros j _. eexists. reflexivity.
  - exists w', row. split; [exact Hrun|]. split; [exact Hb | exact Hcount].
Defined.

Lemma submit_counts_each_task_once_witness :
  exists s' batch_bytes,
    submit deployed "audio/wav" "a" "again" (Sample.bs "AAAA") "t1" (boot Sample.dir)
    = Some (s', Accepted "a" batch_bytes)
    /\ get_batch_size Sample.dir = 6
    /\ batch_bytes = 9.
Proof.
  destruct (submit_counts_each_task_once deployed "audio/wav" "a" "again"
              (Sample.bs "AAAA") "t1" (boot Sample.dir))
    as (s' & total & Hsub & _ & Htotal).
  - vm_compute. reflexivity.
  - vm_compute. reflexivity.
  - reflexivity.
  - exists s', total. split; [exact Hsub|]. split; [vm_compute; reflexivity|].
    rewrite Htotal. vm_compute. reflexivity.
Defined.

Lemma submit_never_waits_witness :
  let s := Sample.reached
             (run Sample.small Sample.container (boot Sample.dir)
                [Sample.request_d; Sample.start_0; Sample.request_e]) in
  upload_lock s = false
  /\ is_Some (submit Sample.small "audio/wav" "f" "fa" (Sample.bs "F") "t5" s).
Proof.
  intros s.
  destruct (submit_never_waits Sample.small Sample.container Sample.dir
              [Sample.request_d; Sample.start_0; Sample.request_e] s)
    as (Hlock & Hsub).
  - vm_compute. reflexivity.
  - split; [exact Hlock | apply Hsub].
Defined.

Lemma written_rows_are_kept_witness :
  let events := [Sample.request_d; Sample.start_0; Sample.failure_0; Sample.request_e] in
  let s' := Sample.reached (run Sample.small Sample.container (boot Sample.dir) events) in
  recordings Sample.dir `prefix_of` recordings (sys_world s')
  /\ length (recordings (sys_world s')) = 3%nat.
Proof.
  intros events s'.
  destruct (written_rows_are_kept Sample.small Sample.container events
              (boot Sample.dir) s')
    as (_ & Hrec & _).
  - vm_compute. reflexivity.
  - split; [exact Hrec|]. vm_compute. reflexivity.
Defined.


Lemma submitted_transcript_reaches_manifest_witness :
  fetch_rows (record_submission "d" "dal" (Sample.bs "D") "t1" Sample2.listed)
  = Ok [("a.wav", "alif"); ("b.wav", "ba"); ("c.wav", "ta"); ("d.wav", "dal")]
  /\ (dest_name "d", "dal")
     ∈ [("a.wav", "alif"); ("b.wav", "ba"); ("c.wav", "ta"); ("d.wav", "dal")].
Proof.
  assert (Hfetch : fetch_rows (record_submission "d" "dal" (Sample.bs "D") "t1"
                                 Sample2.listed)
                   = Ok [("a.wav", "alif"); ("b.wav", "ba"); ("c.wav", "ta");
                         ("d.wav", "dal")])
    by (vm_compute; reflexivity).
  split; [exact Hfetch|].
  assert (H1 : plain_id "d" = true) by (vm_compute; reflexivity).
  assert (H2 : "d" <> "") by discriminate.
  assert (H3 : forall r, r ∈ recordings Sample2.listed -> rec_task_id r <> "d").
  { intros r Hr. unfold Sample2.listed, recordings in Hr.
    repeat (apply elem_of_cons in Hr as [->|Hr]; [vm_compute; discriminate|]).
    apply elem_of_nil in Hr. destruct Hr. }
  pose proof (submitted_transcript_reaches_manifest "d" "dal" (Sample.bs "D") "t1"
                Sample2.listed H1 H2 H3) as H.
  cbv zeta in H. destruct H as (_ & _ & Hrows).
  apply Hrows. exact Hfetch.
Defined.

Lemma unknown_task_is_recorded_witness :
  exists s' batch_bytes,
    submit deployed "audio/wav" "never-issued" "x" (Sample.bs "X") "t1" (boot Sample.dir)
    = Some (s', Accepted "never-issued" batch_bytes)
    /\ tasks (sys_world s') = []
    /\ scratch (sys_world s') !! "never-issued.wav" = Some (Sample.bs "X").
Proof.
  destruct (unknown_task_is_recorded deployed "audio/wav" "never-issued" "x"
              (Sample.bs "X") "t1" (boot Sample.dir))
    as (s' & total & Hsub & Htasks & Hfile & _).
  - vm_compute. reflexivity.
  - vm_compute. reflexivity.
  - reflexivity.
  - intros t Ht. vm_compute in Ht. by apply elem_of_nil in Ht.
  - exists s', total. split; [exact Hsub|]. split; [exact Htasks | exact Hfile].
Defined.

Lemma load_quran_nested_sorted_witness :
  Quran.load_quran Sample2.decimal (Some (Quran.BySurah Sample2.nested))
  = Quran.Loaded Sample2.verses
  /\ StronglySorted (fun a b => Quran.key_le a b = true) Sample2.verses
  /\ length Sample2.verses = 3%nat.
Proof.
  assert (H : Quran.load_quran Sample2.decimal (Some (Quran.BySurah Sample2.nested))
              = Quran.Loaded Sample2.verses) by (vm_compute; reflexivity).
  split; [exact H|].
  destruct (QuranFacts.load_quran_nested_sorted Sample2.decimal Sample2.nested
              Sample2.verses H)
    as (Hsorted & Hlen & _).
  split; [exact Hsorted|]. rewrite Hlen. vm_compute. reflexivity.
Defined.

Lemma window_is_never_short_witness :
  length (Sampling.window_words Sample2.six_words 4 2) = 4%nat.
Proof.
  destruct (SamplingFacts.window_is_never_short Sample2.six_words 4 2) as (Hlen & _).
  - vm_compute. repeat constructor.
  - rewrite Hlen. vm_compute. reflexivity.
Defined.

Lemma bridging_stays_in_range_witness :
  exists t,
    Sampling.get_random_task Sample2.verses Sample2.draw_bridging = Some t
    /\ Sampling.t_text t = [Sample2.sin; 0x20; Sample2.sin]%N
    /\ Sampling.t_surah t = 2 /\ Sampling.t_ayah t = 2.
Proof.
  destruct (SamplingFacts.bridging_stays_in_range Sample2.verses Sample2.draw_bridging)
    as (curr & next & words & Hcurr & Hnext & Hwords & _ & Hrun).
  - reflexivity.
  - vm_compute. repeat constructor.
  - vm_compute in Hcurr. injection Hcurr as <-.
    vm_compute in Hnext. injection Hnext as <-.
    subst words. eexists. split; [exact Hrun|].
    split; [vm_compute; reflexivity|]. split; reflexivity.
Defined.

Lemma issued_task_becomes_recorded_witness :
  exists w1 t s' batch_bytes,
    Sampling.get_task Sample2.utf8_stub Sample2.verses Sample2.draw_bridging Sample.dir
    = Some (w1, t)
    /\ submit deployed "audio/wav" (Sampling.t_task_id t) "sin sin" (Sample.bs "S") "t2"
         (set_world w1 (boot Sample.dir))
       = Some (s', Accepted "id-1" batch_bytes)
    /\ task_status <$> tasks w1 = ["pending"]
    /\ task_status <$> tasks (sys_world s') = ["recorded"].
Proof.
  set (r := Sampling.get_task Sample2.utf8_stub Sample2.verses Sample2.draw_bridging
              Sample.dir).
  set (w1 := match r with Some (w, _) => w | None => Sample.dir end).
  set (t := match r with
            | Some (_, t) => t
            | None => {| Sampling.t_task_id := ""; Sampling.t_text := [];
                         Sampling.t_mode := Sampling.full_verse;
                         Sampling.t_surah := 0; Sampling.t_ayah := 0 |}
            end).
  assert (Hget : r = Some (w1, t)) by (vm_compute; reflexivity).
  destruct (SamplingFacts.issued_task_becomes_recorded deployed Sample2.utf8_stub
              Sample2.verses Sample2.draw_bridging (boot Sample.dir) w1 t
              "audio/wav" "sin sin" (Sample.bs "S") "t2" Hget)
    as (s' & total & Hsub & Hpending & Hrecorded).
  - intros x Hx. vm_compute in Hx. by apply elem_of_nil in Hx.
  - vm_compute. reflexivity.
  - reflexivity.
  - exists w1, t, s', total. split; [exact Hget|]. split; [exact Hsub|].
    split; [rewrite Hpending | rewrite Hrecorded]; vm_compute; reflexivity.
Defined.
